(** * vtt-timecode-processor: timecode rewriting and batch dispatch

    A shallow embedding of [vtt_processor.py]: the two precompiled
    timecode patterns, [FileProcessor.adjust_timecode_vtt], the
    per-line rewrite of [FileProcessor.convert_srt_to_vtt], the name
    derivation and [rename_file], and the counting loop of
    [process_files]. *)

From Stdlib Require Import String Ascii NArith Bool Arith Lia List.
From Stdlib Require Import DecimalString Permutation.
From Stdlib Require DecimalFacts DecimalPos DecimalN.
From Equations Require Import Equations.
Import ListNotations.

(** ** Text

    A Python [str] is a sequence of Unicode code points. *)

Definition char := N.
Definition str := list char.

(** An ASCII literal of the source, as code points. *)
Definition lit (s : string) : str := map N_of_ascii (list_ascii_of_string s).
Arguments lit s%_string.

Definition newline : char := 10%N.

(** [\d] on a [str] pattern matches the characters of Unicode category
    Nd.  They come in blocks of consecutive code points; the table is the
    one of the Unicode database 14.0 (CPython 3.11): first code point and
    size of each block. *)
Definition Nd_blocks : list (N * N) :=
  [ (48, 10); (1632, 10); (1776, 10); (1984, 10); (2406, 10); (2534, 10);
    (2662, 10); (2790, 10); (2918, 10); (3046, 10); (3174, 10); (3302, 10);
    (3430, 10); (3558, 10); (3664, 10); (3792, 10); (3872, 10); (4160, 10);
    (4240, 10); (6112, 10); (6160, 10); (6470, 10); (6608, 10); (6784, 10);
    (6800, 10); (6992, 10); (7088, 10); (7232, 10); (7248, 10); (42528, 10);
    (43216, 10); (43264, 10); (43472, 10); (43504, 10); (43600, 10);
    (44016, 10); (65296, 10); (66720, 10); (68912, 10); (69734, 10);
    (69872, 10); (69942, 10); (70096, 10); (70384, 10); (70736, 10);
    (70864, 10); (71248, 10); (71360, 10); (71472, 10); (71904, 10);
    (72016, 10); (72784, 10); (73040, 10); (73120, 10); (92768, 10);
    (92864, 10); (93008, 10); (120782, 50); (123200, 10); (123632, 10);
    (125264, 10); (130032, 10) ]%N.

Definition isdecimal (c : char) : bool :=
  existsb (fun b => (fst b <=? c)%N && (c <? fst b + snd b)%N) Nd_blocks.

(** ** The regular expressions of the program

    Both patterns are sequences of [\d{n}] and literal text, some of it
    inside capturing groups; there is no alternation and no repetition
    of variable length. *)

Inductive piece :=
| Digits (n : nat)          (* \d{n} *)
| Lit (s : string).         (* literal characters *)

Inductive item :=
| Group (ps : list piece)   (* ( ... ) *)
| Bare (p : piece).

Definition regex := list item.

(** A compiled pattern: one atom per character to match, and the span
    (offset, length) of every capturing group inside the match. *)
Inductive atom :=
| Digit
| Char (c : char).

Record pattern := { atoms : list atom; spans : list (nat * nat) }.

Definition piece_atoms (p : piece) : list atom :=
  match p with
  | Digits n => repeat Digit n
  | Lit s => map Char (lit s)
  end.

Definition item_atoms (i : item) : list atom :=
  match i with
  | Group ps => flat_map piece_atoms ps
  | Bare p => piece_atoms p
  end.

Fixpoint spans_from (off : nat) (r : regex) : list (nat * nat) :=
  match r with
  | [] => []
  | i :: r' =>
      let n := length (item_atoms i) in
      match i with
      | Group _ => (off, n) :: spans_from (off + n) r'
      | Bare _ => spans_from (off + n) r'
      end
  end.

Definition compile (r : regex) : pattern :=
  {| atoms := flat_map item_atoms r; spans := spans_from 0 r |}.

(** r"(\d{2}):(\d{2}):(\d{2}\.\d{3}) --> (\d{2}):(\d{2}):(\d{2}\.\d{3})" *)
Definition VTT_TIMECODE_PATTERN : pattern :=
  compile
    [ Group [Digits 2]; Bare (Lit ":"); Group [Digits 2]; Bare (Lit ":");
      Group [Digits 2; Lit "."; Digits 3];
      Bare (Lit " --> ");
      Group [Digits 2]; Bare (Lit ":"); Group [Digits 2]; Bare (Lit ":");
      Group [Digits 2; Lit "."; Digits 3] ].

(** r"(\d{2}):(\d{2}):(\d{2}),(\d{3})" *)
Definition SRT_TIMECODE_PATTERN : pattern :=
  compile
    [ Group [Digits 2]; Bare (Lit ":"); Group [Digits 2]; Bare (Lit ":");
      Group [Digits 2]; Bare (Lit ","); Group [Digits 3] ].

Definition width (p : pattern) : nat := length (atoms p).

Definition accepts (a : atom) (c : char) : bool :=
  match a with
  | Digit => isdecimal c
  | Char d => N.eqb c d
  end.

(** Does the atom sequence match a prefix of [l]? *)
Fixpoint match_atoms (p : list atom) (l : str) : bool :=
  match p, l with
  | [], _ => true
  | a :: p', c :: l' => accepts a c && match_atoms p' l'
  | _ :: _, [] => false
  end.

(** The captured groups of a match [m]: [group gs k] is [m.group(k)]
    for [k >= 1]. *)
Definition groups (p : pattern) (m : str) : list str :=
  map (fun sp => firstn (snd sp) (skipn (fst sp) m)) (spans p).

Definition group (gs : list str) (k : nat) : str := nth (k - 1) gs [].

(** [pattern.search(l)]: the groups of the leftmost match, if any. *)
Fixpoint search (p : pattern) (l : str) : option (list str) :=
  if match_atoms (atoms p) l then Some (groups p (firstn (width p) l))
  else match l with
       | [] => None
       | _ :: l' => search p l'
       end.

(** [pattern.sub(repl, l)] with [repl] a function of the match: scan from
    the left; where the pattern matches, emit the replacement and resume
    after the match; elsewhere copy one character.  A match of width 0
    is replaced and the scan moves on by one character. *)
Equations? sub (p : pattern) (repl : list str -> str) (l : str) : str
  by wf (length l) lt :=
  sub p repl [] :=
    if match_atoms (atoms p) [] then repl (groups p []) else [];
  sub p repl (c :: l') :=
    if match_atoms (atoms p) (c :: l') then
      if width p =? 0 then repl (groups p []) ++ c :: sub p repl l'
      else repl (groups p (firstn (width p) (c :: l')))
             ++ sub p repl (skipn (width p - 1) l')
    else c :: sub p repl l'.
Proof.
  all: simpl; try lia.
  rewrite length_skipn. lia.
Qed.

(** A replacement string without backslash is inserted as it is. *)
Definition template (s : str) : list str -> str := fun _ => s.

(** ** FileProcessor *)

Definition adjust_timecode_vtt (line : str) : str :=
  match search VTT_TIMECODE_PATTERN line with
  | Some m =>
      let mm1 := group m 2 in
      let ss1 := group m 3 in
      let mm2 := group m 5 in
      let ss2 := group m 6 in
      let new_timecode :=
        lit "00:" ++ mm1 ++ lit ":" ++ ss1 ++ lit " --> 00:" ++ mm2
            ++ lit ":" ++ ss2 in
      sub VTT_TIMECODE_PATTERN (template new_timecode) line
  | None => line
  end.

(** The rewrite of one line inside the loop of [convert_srt_to_vtt]. *)
Definition srt_line (line : str) : str :=
  sub SRT_TIMECODE_PATTERN
      (fun m => group m 1 ++ lit ":" ++ group m 2 ++ lit ":" ++ group m 3
                  ++ lit "." ++ group m 4)
      line.


(** ** Strings of the standard library used by the dispatcher *)

(** [str.isspace]: the characters removed by [str.strip()], as inclusive
    ranges of code points. *)
Definition whitespace_ranges : list (N * N) :=
  [ (9, 13); (28, 32); (133, 133); (160, 160); (5760, 5760); (8192, 8202);
    (8232, 8233); (8239, 8239); (8287, 8287); (12288, 12288) ]%N.

Definition isspace (c : char) : bool :=
  existsb (fun b => (fst b <=? c)%N && (c <=? snd b)%N) whitespace_ranges.

Fixpoint lstrip (s : str) : str :=
  match s with
  | [] => []
  | c :: s' => if isspace c then lstrip s' else s
  end.

Definition rstrip (s : str) : str := rev (lstrip (rev s)).

Definition strip (s : str) : str := rstrip (lstrip s).

Definition str_eqb (a b : str) : bool :=
  if list_eq_dec N.eq_dec a b then true else false.

Fixpoint startswith (s prefix : str) : bool :=
  match prefix, s with
  | [], _ => true
  | d :: prefix', c :: s' => N.eqb c d && startswith s' prefix'
  | _ :: _, [] => false
  end.

Definition endswith (s suffix : str) : bool :=
  startswith (rev s) (rev suffix).

(** [str.lower()] on the ASCII letters.  No character outside ASCII has a
    lower-case form containing [.], [v], [t], [s] or [r], so the suffix
    tests of the file selection see the same result. *)
Definition lower_char (c : char) : char :=
  if (65 <=? c)%N && (c <=? 90)%N then (c + 32)%N else c.

Definition lower (s : str) : str := map lower_char s.

(** [s.replace(old, new)]: every non-overlapping occurrence of [old],
    found from the left, becomes [new]. *)
Definition replace (old new s : str) : str :=
  sub {| atoms := map Char old; spans := [] |} (template new) s.

(** [os.path.join(a, b)] of [posixpath]. *)
Definition sep : char := 47%N.

Definition path_join (a b : str) : str :=
  if startswith b [sep] then b
  else if match a with [] => true | _ => false end || endswith a [sep]
       then a ++ b
       else a ++ [sep] ++ b.

(** [f"{index}"] for a non-negative [int]. *)
Definition format_int (n : N) : str :=
  lit (NilEmpty.string_of_uint (N.to_uint n)).

(** ** File processing

    Reading a source file yields its lines one after the other and may
    raise in between (an encoding error); opening either file may fail.
    The lines are those that the loop receives: decoded, with the newline
    translation of text mode done, and read while the destination is
    open (a source that is also the destination has been truncated).
    Writes to an opened destination succeed: a failing write or flush is
    not part of the model. *)

Inductive read_event :=
| Line (l : str)
| ReadError.

Record filesystem := {
  open_read : str -> option (list read_event);
  open_write : str -> bool
}.

(** The body of [for line in f: out.write(g(line))], under the enclosing
    [try]: the result flag and what was written so far. *)
Fixpoint write_lines (g : str -> str) (evs : list read_event) (out : str)
  : bool * str :=
  match evs with
  | [] => (true, out)
  | Line l :: evs' => write_lines g evs' (out ++ g l)
  | ReadError :: _ => (false, out)
  end.

(** Result flag and the content of the destination ([None]: it was not
    opened by this call). *)
Definition convert_srt_to_vtt (fs : filesystem) (input_path output_path : str)
  : bool * option str :=
  match open_read fs input_path with
  | None => (false, None)
  | Some evs =>
      if open_write fs output_path then
        let r := write_lines srt_line evs (lit "WEBVTT" ++ [newline; newline]) in
        (fst r, Some (snd r))
      else (false, None)
  end.

Definition process_vtt_file (fs : filesystem) (input_path output_path : str)
  : bool * option str :=
  match open_read fs input_path with
  | None => (false, None)
  | Some evs =>
      if open_write fs output_path then
        let r := write_lines adjust_timecode_vtt evs [] in
        (fst r, Some (snd r))
      else (false, None)
  end.

(** ** VTTTimecodeZeroerApp *)

(** The Tk variables read by the dispatcher. *)
Record options := {
  sequential_var : bool;
  prefix_var : str;
  rename_var : bool;
  use_threads_var : bool
}.

(** [askstring] is the dialog: it receives the prompt and returns the
    answer, [None] when the dialog is cancelled. *)
Definition rename_file (opts : options) (askstring : str -> option str)
    (output_directory file_name : str) (index : N) : str :=
  if sequential_var opts then
    let prefix := strip (prefix_var opts) in
    let new_name :=
      match prefix with
      | _ :: _ => prefix ++ format_int index
      | [] => format_int index
      end in
    path_join output_directory (new_name ++ lit ".vtt")
  else if rename_var opts then
    let new_name :=
      askstring (lit "Enter new name for " ++ file_name
                   ++ lit " (leave blank to keep original name):") in
    let new_name :=
      match new_name with
      | None => file_name
      | Some a =>
          if str_eqb (strip a) [] then file_name
          else strip a ++ lit "_" ++ format_int index
      end in
    path_join output_directory (new_name ++ lit ".vtt")
  else
    path_join output_directory
      (file_name ++ lit "_" ++ format_int index ++ lit ".vtt").

(** [choice == "vtt"]; every other value takes the SRT branch. *)
Definition is_vtt (choice : str) : bool := str_eqb choice (lit "vtt").

(** The files of the listing that the batch takes. *)
Definition select_files (choice : str) (listing : list str) : list str :=
  if is_vtt choice
  then filter (fun f => endswith (lower f) (lit ".vtt")) listing
  else filter (fun f => endswith (lower f) (lit ".srt")) listing.

Definition base_name (choice file_name : str) : str :=
  if is_vtt choice
  then replace (lit ".vtt") [] (replace (lit ".mp4.vtt") [] file_name)
  else replace (lit ".srt") [] file_name.

(** [min(os.cpu_count() or 2, 4)]; [os.cpu_count()] is [None] or a
    count. *)
Definition max_workers (cpu_count : option N) : N :=
  N.min (match cpu_count with
         | Some n => if (n =? 0)%N then 2%N else n
         | None => 2%N
         end) 4%N.

(** [Some w]: the batch goes through a pool of [w] workers; [None]: it
    runs file by file. *)
Definition pool_size (opts : options) (cpu_count : option N)
    (total_files : nat) : option N :=
  if use_threads_var opts && (1 <? total_files)
  then Some (max_workers cpu_count)
  else None.

(** One file of the batch: input and output path. *)
Definition task := (str * str)%type.

(** The paths of the batch, in enumeration order; [rename_file] is called
    once per file, with the index counted from [index]. *)
Fixpoint make_tasks (opts : options) (askstring : str -> option str)
    (choice input_dir output_dir : str) (files : list str) (index : N)
  : list task :=
  match files with
  | [] => []
  | file_name :: files' =>
      let input_path := path_join input_dir file_name in
      let output_path :=
        rename_file opts askstring output_dir (base_name choice file_name)
          index in
      (input_path, output_path)
        :: make_tasks opts askstring choice input_dir output_dir files'
             (index + 1)
  end.

Definition run_task (fs : filesystem) (choice : str) (t : task) : bool :=
  if is_vtt choice
  then fst (process_vtt_file fs (fst t) (snd t))
  else fst (convert_srt_to_vtt fs (fst t) (snd t)).

(** The two counters and the outcomes seen so far. *)
Record counts := {
  processed_count : nat;
  failed_count : nat;
  outcomes : list bool
}.

Definition tally (st : counts) (result : bool) : counts :=
  if result
  then {| processed_count := processed_count st + 1;
          failed_count := failed_count st;
          outcomes := outcomes st ++ [result] |}
  else {| processed_count := processed_count st;
          failed_count := failed_count st + 1;
          outcomes := outcomes st ++ [result] |}.

Definition no_counts : counts :=
  {| processed_count := 0; failed_count := 0; outcomes := [] |}.

(** The sequential branch: run each task and count its result. *)
Fixpoint sequential_loop (fs : filesystem) (choice : str) (ts : list task)
    (st : counts) : counts :=
  match ts with
  | [] => st
  | t :: ts' => sequential_loop fs choice ts' (tally st (run_task fs choice t))
  end.

(** The pool branch.  Every submitted task has a future; the workers
    complete the tasks in the order [sched] (task numbers from 0), which
    the program does not control. *)
Fixpoint set_future (i : nat) (r : bool) (futures : list (option bool))
  : list (option bool) :=
  match futures, i with
  | [], _ => []
  | _ :: fs', 0 => Some r :: fs'
  | f :: fs', S i' => f :: set_future i' r fs'
  end.

Definition run_pool (fs : filesystem) (choice : str) (ts : list task)
    (sched : list nat) : list (option bool) :=
  fold_left
    (fun futures i =>
       match nth_error ts i with
       | Some t => set_future i (run_task fs choice t) futures
       | None => futures
       end)
    sched (repeat None (length ts)).

(** [for i, future in enumerate(futures): future.result()]: the results
    are taken in submission order; a future that is never completed
    blocks the loop ([None]). *)
Fixpoint collect (futures : list (option bool)) (st : counts)
  : option counts :=
  match futures with
  | [] => Some st
  | Some r :: futures' => collect futures' (tally st r)
  | None :: _ => None
  end.

Inductive batch_result :=
| NoMatchingFiles
| Complete (st : counts)
| Blocked.

Definition process_files (opts : options) (askstring : str -> option str)
    (fs : filesystem) (cpu_count : option N) (sched : list nat)
    (listing : list str) (choice input_dir output_dir : str)
  : batch_result :=
  let files := select_files choice listing in
  let total_files := length files in
  if total_files =? 0 then NoMatchingFiles
  else
    let ts := make_tasks opts askstring choice input_dir output_dir files 1 in
    match pool_size opts cpu_count total_files with
    | Some _ =>
        match collect (run_pool fs choice ts sched) no_counts with
        | Some st => Complete st
        | None => Blocked
        end
    | None => Complete (sequential_loop fs choice ts no_counts)
    end.

(** ** The window: starting and ending a batch *)

Inductive dialog :=
| showinfo (title message : str)
| showerror (title message : str).

(** What [start_processing] asks of the operating system; [makedirs]
    gives the text of the exception when it raises. *)
Record os_paths := {
  path_exists : str -> bool;
  path_isdir : str -> bool;
  makedirs : str -> option str
}.

(** The attributes and Tk variables that the three handlers read or
    write, the dialogs that [start_processing] has shown and whether the
    window is gone.
    [start_button_normal] is the state of the start button: normal or
    disabled. *)
Record window := {
  is_processing : bool;
  start_button_normal : bool;
  status_var : str;
  input_dir_var : str;
  output_dir_var : str;
  choice_var : str;
  shown : list dialog;
  destroyed : bool
}.

Definition show (d : dialog) (w : window) : window :=
  {| is_processing := is_processing w;
     start_button_normal := start_button_normal w;
     status_var := status_var w;
     input_dir_var := input_dir_var w;
     output_dir_var := output_dir_var w;
     choice_var := choice_var w;
     shown := shown w ++ [d];
     destroyed := destroyed w |}.

(** The new window and, when a batch starts, the arguments of the thread
    that runs [process_files_thread]. *)
Definition start_processing (os : os_paths) (w : window)
  : window * option (str * str * str) :=
  if is_processing w then
    (show (showinfo (lit "Processing")
             (lit "Already processing files. Please wait.")) w, None)
  else
    let input_dir := input_dir_var w in
    let output_dir := output_dir_var w in
    if str_eqb input_dir [] || str_eqb output_dir [] then
      (show (showerror (lit "Error")
               (lit "Please select both input and output directories.")) w,
       None)
    else if negb (path_exists os input_dir) || negb (path_isdir os input_dir)
    then
      (show (showerror (lit "Error") (lit "Invalid input directory.")) w, None)
    else
      match (if path_exists os output_dir then None
             else makedirs os output_dir) with
      | Some e =>
          (show (showerror (lit "Error")
                   (lit "Could not create output directory: " ++ e)) w, None)
      | None =>
          ({| is_processing := true;
              start_button_normal := false;
              status_var := lit "Processing...";
              input_dir_var := input_dir_var w;
              output_dir_var := output_dir_var w;
              choice_var := choice_var w;
              shown := shown w;
              destroyed := destroyed w |},
           Some (choice_var w, input_dir, output_dir))
      end.

Definition processing_complete (w : window) : window :=
  {| is_processing := false;
     start_button_normal := true;
     status_var := lit "Ready";
     input_dir_var := input_dir_var w;
     output_dir_var := output_dir_var w;
     choice_var := choice_var w;
     shown := shown w;
     destroyed := destroyed w |}.

(** [askyesno] is the answer to the question asked when a batch is
    running. *)
Definition on_closing (askyesno : bool) (w : window) : window :=
  if is_processing w then
    if askyesno then
      {| is_processing := false;
         start_button_normal := start_button_normal w;
         status_var := status_var w;
         input_dir_var := input_dir_var w;
         output_dir_var := output_dir_var w;
         choice_var := choice_var w;
         shown := shown w;
         destroyed := true |}
    else w
  else
    {| is_processing := is_processing w;
       start_button_normal := start_button_normal w;
       status_var := status_var w;
       input_dir_var := input_dir_var w;
       output_dir_var := output_dir_var w;
       choice_var := choice_var w;
       shown := shown w;
       destroyed := true |}.

(** [directory] is what [askdirectory] returns, empty when cancelled. *)
Definition select_input_directory (directory : str) (w : window) : window :=
  match directory with
  | [] => w
  | _ :: _ =>
      {| is_processing := is_processing w;
         start_button_normal := start_button_normal w;
         status_var := status_var w;
         input_dir_var := directory;
         output_dir_var := output_dir_var w;
         choice_var := choice_var w;
         shown := shown w;
         destroyed := destroyed w |}
  end.

Definition select_output_directory (directory : str) (w : window) : window :=
  match directory with
  | [] => w
  | _ :: _ =>
      {| is_processing := is_processing w;
         start_button_normal := start_button_normal w;
         status_var := status_var w;
         input_dir_var := input_dir_var w;
         output_dir_var := directory;
         choice_var := choice_var w;
         shown := shown w;
         destroyed := destroyed w |}
  end.

(** The window as [__init__] and [create_widgets] leave it. *)
Definition new_window : window :=
  {| is_processing := false;
     start_button_normal := true;
     status_var := lit "Ready";
     input_dir_var := [];
     output_dir_var := [];
     choice_var := lit "vtt";
     shown := [];
     destroyed := false |}.

(** What can happen to the window: the start button's command; the end of
    a worker thread, which in the [finally] of [process_files_thread]
    hands [processing_complete] to the Tk loop with [after(0, ...)] and is
    gone; the Tk loop running such a callback, some time later; the close
    button with the answer to its question; and the two directory
    dialogs.  [threads] counts the worker threads that have not ended,
    [pending] the [processing_complete] callbacks that wait on the Tk
    loop.  A destroyed window handles no click and runs no callback, and
    nothing can be scheduled on it: a thread that ends then leaves no
    callback. *)
Inductive event :=
| start_clicked
| thread_ended
| callback_run
| close_clicked (askyesno : bool)
| input_browsed (directory : str)
| output_browsed (directory : str).

Record session := { win : window; threads : nat; pending : nat }.

Definition handle (os : os_paths) (s : session) (e : event) : session :=
  if destroyed (win s) then
    match e with
    | thread_ended =>
        {| win := win s; threads := threads s - 1; pending := pending s |}
    | _ => s
    end
  else
    match e with
    | start_clicked =>
        let r := start_processing os (win s) in
        {| win := fst r;
           threads := threads s + match snd r with Some _ => 1 | None => 0 end;
           pending := pending s |}
    | thread_ended =>
        match threads s with
        | 0 => s
        | S n => {| win := win s; threads := n; pending := pending s + 1 |}
        end
    | callback_run =>
        match pending s with
        | 0 => s
        | S n =>
            {| win := processing_complete (win s);
               threads := threads s;
               pending := n |}
        end
    | close_clicked a =>
        {| win := on_closing a (win s);
           threads := threads s;
           pending := pending s |}
    | input_browsed d =>
        {| win := select_input_directory d (win s);
           threads := threads s;
           pending := pending s |}
    | output_browsed d =>
        {| win := select_output_directory d (win s);
           threads := threads s;
           pending := pending s |}
    end.

Definition run_events (os : os_paths) (evs : list event) : session :=
  fold_left (handle os) evs {| win := new_window; threads := 0; pending := 0 |}.

(** What holds of the worker threads at every moment. *)
Definition batch_invariant (s : session) : Prop :=
  threads s + pending s <= 1
  /\ (destroyed (win s) = false ->
      threads s + pending s = (if is_processing (win s) then 1 else 0)
      /\ start_button_normal (win s) = negb (is_processing (win s))).

(** ** Occurrences *)

(** The pattern matches [l] at offset [i]: an occurrence. *)
Definition occb (p : pattern) (l : str) (i : nat) : bool :=
  match_atoms (atoms p) (skipn i l).

Definition occ (p : pattern) (l : str) (i : nat) : Prop := occb p l i = true.

(** Some offset of [l] carries a match. *)
Fixpoint has_match (p : pattern) (l : str) : bool :=
  match_atoms (atoms p) l
  || match l with
     | [] => false
     | _ :: l' => has_match p l'
     end.

(** Whether no occurrence starts before offset [n]. *)
Definition none_before (p : pattern) (l : str) (n : nat) : bool :=
  forallb (fun i => negb (occb p l i)) (seq 0 n).

(** No two occurrences share a character: after an occurrence at [i], none
    starts at the next [width p - 1] offsets. *)
Definition overlap_free (p : pattern) (l : str) : bool :=
  forallb
    (fun i => negb (occb p l i)
              || forallb (fun j => negb (occb p l j)) (seq (S i) (width p - 1)))
    (seq 0 (length l)).

(** The left-to-right scan, told without the scanning function: [hits]
    lists, for every occurrence the scan stops at, the text skipped before
    it and the occurrence itself; [tl] is what follows the last one.  An
    occurrence is a stop when no occurrence starts earlier in the text
    that remains after the previous stop. *)
Inductive scan (p : pattern) : str -> list (str * str) -> str -> Prop :=
| scan_done l :
    (forall i, ~ occ p l i) -> scan p l [] l
| scan_hit pre m rest hits tl :
    length m = width p ->
    match_atoms (atoms p) m = true ->
    (forall i, i < length pre -> ~ occ p (pre ++ m ++ rest) i) ->
    scan p rest hits tl ->
    scan p (pre ++ m ++ rest) ((pre, m) :: hits) tl.

(** What a replacement [repl] makes of the stops of a scan. *)
Definition rebuild (repl : str -> str) (hits : list (str * str)) (tl : str)
  : str :=
  flat_map (fun h => fst h ++ repl (snd h)) hits ++ tl.

(** The offsets in the line at which the stops of a scan begin, when the
    scanned text begins at offset [off]. *)
Fixpoint stop_offsets (off : nat) (hits : list (str * str)) : list nat :=
  match hits with
  | [] => []
  | h :: hits' =>
      (off + length (fst h))
        :: stop_offsets (off + length (fst h) + length (snd h)) hits'
  end.

(** Two characters that every pattern of the program treats alike. *)
Definition alike (a b : char) : Prop :=
  a = b \/ (isdecimal a = true /\ isdecimal b = true).

(** A character and what the punctuation rewrite may make of it. *)
Definition comma_or_same (a b : char) : Prop :=
  a = b \/ (a = 44%N /\ b = 46%N).

(** The literal characters of a pattern are not digits. *)
Definition plain_literals (p : pattern) : bool :=
  forallb (fun a => match a with Digit => true | Char c => negb (isdecimal c) end)
          (atoms p).

(** ** The VTT and SRT timecodes, character by character *)

Definition digits (n : nat) (s : str) : Prop :=
  length s = n /\ forallb isdecimal s = true.

(** [HH:MM:SS.mmm --> HH:MM:SS.mmm] *)
Definition vtt_range (h1 m1 s1 f1 h2 m2 s2 f2 : str) : str :=
  h1 ++ lit ":" ++ m1 ++ lit ":" ++ s1 ++ lit "." ++ f1 ++ lit " --> "
     ++ h2 ++ lit ":" ++ m2 ++ lit ":" ++ s2 ++ lit "." ++ f2.

(** [HH:MM:SS,mmm] and [HH:MM:SS.mmm] *)
Definition srt_timecode (h m s f : str) : str :=
  h ++ lit ":" ++ m ++ lit ":" ++ s ++ lit "," ++ f.

Definition vtt_timecode (h m s f : str) : str :=
  h ++ lit ":" ++ m ++ lit ":" ++ s ++ lit "." ++ f.

(** The replacement built by [adjust_timecode_vtt] from the groups of a
    match. *)
Definition new_timecode (gs : list str) : str :=
  lit "00:" ++ group gs 2 ++ lit ":" ++ group gs 3 ++ lit " --> 00:"
      ++ group gs 5 ++ lit ":" ++ group gs 6.

(** The text [m] with the two hour fields of a VTT range set to [00]. *)
Definition zero_hours (m : str) : str :=
  lit "00" ++ firstn 15 (skipn 2 m) ++ lit "00" ++ skipn 19 m.

(** The text [m] with the comma of an SRT timecode turned into a period. *)
Definition comma_to_period (m : str) : str :=
  firstn 8 m ++ lit "." ++ skipn 9 m.

(** No blank answer: sequential numbering, or no interactive rename, or a
    dialog that always gets a name. *)
Definition indexed_names (opts : options) (askstring : str -> option str)
  : Prop :=
  sequential_var opts = true
  \/ rename_var opts = false
  \/ forall q, exists a, askstring q = Some a /\ strip a <> [].

(** ** Lemmas on matching *)

Lemma match_atoms_firstn (p : list atom) (l : str) :
  match_atoms p l = match_atoms p (firstn (length p) l).
Proof.
  revert l. induction p as [|a p IH]; intros [|c l]; simpl; auto.
  now rewrite <- IH.
Qed.

Lemma match_atoms_length (p : list atom) (l : str) :
  match_atoms p l = true -> length p <= length l.
Proof.
  revert l. induction p as [|a p IH]; intros [|c l]; simpl; try lia; try discriminate.
  intros H. apply andb_prop in H as [_ H]. apply IH in H. lia.
Qed.

Lemma match_atoms_app (p : list atom) (m rest : str) :
  length m = length p ->
  match_atoms p (m ++ rest) = match_atoms p m.
Proof.
  intros H. rewrite (match_atoms_firstn p (m ++ rest)).
  rewrite firstn_app, <- H, firstn_all, Nat.sub_diag. simpl.
  now rewrite app_nil_r.
Qed.

Lemma match_atoms_alike (p : list atom) (x y : str) :
  forallb (fun a => match a with Digit => true | Char c => negb (isdecimal c) end) p
    = true ->
  Forall2 alike x y ->
  match_atoms p x = match_atoms p y.
Proof.
  intros Hp H. revert p Hp.
  induction H as [|a b x y Hab H IH]; intros [|t p] Hp; simpl; auto.
  simpl in Hp. apply andb_prop in Hp as [Ht Hp].
  rewrite (IH p Hp). f_equal.
  destruct Hab as [->|[Ha Hb]]; auto.
  destruct t as [|c]; simpl; [congruence|].
  destruct (N.eqb_spec a c) as [->|Hac], (N.eqb_spec b c) as [->|Hbc]; auto.
  - rewrite Ha in Ht. discriminate.
  - rewrite Hb in Ht. discriminate.
Qed.

Lemma match_atoms_same (p : list atom) (x y : str) :
  length x = length p -> length y = length p ->
  match_atoms p x = true -> match_atoms p y = true ->
  Forall2 alike x y.
Proof.
  revert x y. induction p as [|t p IH]; intros [|a x] [|b y]; simpl;
    try discriminate; auto.
  intros Hx Hy H1 H2.
  apply andb_prop in H1 as [Ha H1]. apply andb_prop in H2 as [Hb H2].
  constructor; [|apply IH; auto].
  destruct t as [|c]; simpl in *.
  - right. auto.
  - left. apply N.eqb_eq in Ha, Hb. congruence.
Qed.

Lemma Forall2_alike_refl (x : str) : Forall2 alike x x.
Proof. induction x; constructor; auto. now left. Qed.

Lemma Forall2_skipn {A B} (R : A -> B -> Prop) (n : nat) (x : list A)
    (y : list B) :
  Forall2 R x y -> Forall2 R (skipn n x) (skipn n y).
Proof.
  intros H. revert n. induction H; intros [|n]; simpl; auto.
Qed.

Lemma has_match_false (p : pattern) (l : str) :
  has_match p l = false <-> forall i, ~ occ p l i.
Proof.
  unfold occ, occb. induction l as [|c l IH]; simpl.
  - rewrite orb_false_r. split.
    + intros H i. rewrite skipn_nil. congruence.
    + intros H. specialize (H 0). simpl in H. now destruct (match_atoms _ _).
  - rewrite orb_false_iff, IH. split.
    + intros [H0 H] [|i]; simpl; [congruence|apply H].
    + intros H. split.
      * specialize (H 0). simpl in H. now destruct (match_atoms _ _).
      * intros i. apply (H (S i)).
Qed.

Lemma search_none (p : pattern) (l : str) :
  search p l = None <-> has_match p l = false.
Proof.
  induction l as [|c l IH]; simpl.
  - destruct (match_atoms _ _); simpl; split; congruence.
  - destruct (match_atoms _ _); simpl; [split; congruence|exact IH].
Qed.

(** ** Lemmas on [sub] *)

Section Sub.
Variable p : pattern.
Variable repl : list str -> str.
Hypothesis width_pos : 0 < width p.

Lemma match_nil : match_atoms (atoms p) [] = false.
Proof.
  unfold width in width_pos. destruct (atoms p); simpl in *; [lia|reflexivity].
Qed.

Lemma sub_nil : sub p repl [] = [].
Proof. simp sub. now rewrite match_nil. Qed.

Lemma sub_miss (c : char) (l : str) :
  match_atoms (atoms p) (c :: l) = false ->
  sub p repl (c :: l) = c :: sub p repl l.
Proof. intros H. simp sub. now rewrite H. Qed.

Lemma sub_hit (m rest : str) :
  length m = width p ->
  match_atoms (atoms p) m = true ->
  sub p repl (m ++ rest) = repl (groups p m) ++ sub p repl rest.
Proof.
  intros Hl Hm. destruct m as [|c m]; simpl in *; [lia|].
  simp sub. change (c :: m ++ rest) with ((c :: m) ++ rest).
  rewrite match_atoms_app by (simpl; exact Hl).
  rewrite Hm.
  destruct (Nat.eqb_spec (width p) 0) as [E|_]; [lia|].
  rewrite <- Hl. f_equal.
  - f_equal.
    change (S (length m)) with (length (c :: m)).
    rewrite firstn_app, firstn_all, Nat.sub_diag. simpl.
    now rewrite app_nil_r.
  - f_equal. simpl. rewrite Nat.sub_0_r.
    rewrite skipn_app, skipn_all, Nat.sub_diag. reflexivity.
Qed.

Lemma sub_prefix (pre l : str) :
  (forall i, i < length pre -> ~ occ p (pre ++ l) i) ->
  sub p repl (pre ++ l) = pre ++ sub p repl l.
Proof.
  induction pre as [|c pre IH]; intros H; simpl; auto.
  rewrite sub_miss.
  - f_equal. apply IH. intros i Hi. apply (H (S i)). simpl. lia.
  - specialize (H 0). unfold occ, occb in H. simpl in H.
    destruct (match_atoms _ _); auto. exfalso. apply H; [lia|reflexivity].
Qed.

Lemma sub_no_match (l : str) :
  has_match p l = false -> sub p repl l = l.
Proof.
  induction l as [|c l IH]; intros H.
  - apply sub_nil.
  - simpl in H. apply orb_false_iff in H as [H0 H].
    rewrite sub_miss by exact H0. now rewrite IH.
Qed.

(** [sub] replaces exactly the stops of the scan. *)
Lemma sub_scan (l : str) (hits : list (str * str)) (tl : str) :
  scan p l hits tl ->
  sub p repl l = rebuild (fun m => repl (groups p m)) hits tl.
Proof.
  induction 1 as [l H|pre m rest hits tl Hl Hm Hpre _ IH]; unfold rebuild; simpl.
  - apply sub_no_match. now apply has_match_false.
  - rewrite sub_prefix by exact Hpre.
    rewrite sub_hit by assumption.
    rewrite IH. unfold rebuild. now rewrite <- !app_assoc.
Qed.

(** Every text has a scan. *)
Lemma scan_total (l : str) : exists hits tl, scan p l hits tl.
Proof.
  remember (length l) as n eqn:Hn. revert l Hn.
  induction n as [n IH] using lt_wf_ind. intros l Hn.
  destruct (has_match p l) eqn:Hm.
  - (* split at the first occurrence *)
    assert (Hfirst : exists pre m rest, l = pre ++ m ++ rest
              /\ length m = width p /\ match_atoms (atoms p) m = true
              /\ forall i, i < length pre -> ~ occ p l i).
    { clear IH Hn. induction l as [|c l IHl]; simpl in Hm.
      - rewrite match_nil in Hm. discriminate.
      - destruct (match_atoms (atoms p) (c :: l)) eqn:H0.
        + exists [], (firstn (width p) (c :: l)), (skipn (width p) (c :: l)).
          pose proof (match_atoms_length _ _ H0) as Hlen.
          repeat split.
          * simpl. now rewrite firstn_skipn.
          * rewrite length_firstn. unfold width. lia.
          * unfold width. now rewrite <- match_atoms_firstn.
          * simpl. intros i Hi. lia.
        + simpl in Hm. destruct (IHl Hm) as (pre & m & rest & -> & Hl & Hmm & Hpre).
          exists (c :: pre), m, rest. repeat split; auto.
          intros [|i] Hi; unfold occ, occb; simpl.
          * rewrite H0. discriminate.
          * apply Hpre. simpl in Hi. lia. }
    destruct Hfirst as (pre & m & rest & -> & Hl & Hmm & Hpre).
    destruct (IH (length rest)) with (l := rest) as (hits & tl & Hs); auto.
    { subst n. rewrite !length_app. lia. }
    exists ((pre, m) :: hits), tl. now constructor.
  - exists [], l. constructor. now apply has_match_false.
Qed.
End Sub.

Lemma match_split (p : pattern) (l : str) :
  match_atoms (atoms p) l = true ->
  exists m rest, l = m ++ rest /\ length m = width p
                 /\ match_atoms (atoms p) m = true.
Proof.
  intros H. exists (firstn (width p) l), (skipn (width p) l).
  pose proof (match_atoms_length _ _ H) as Hlen.
  repeat split.
  - now rewrite firstn_skipn.
  - rewrite length_firstn. unfold width. lia.
  - unfold width. now rewrite <- match_atoms_firstn.
Qed.

(** ** Constant replacements that are themselves matches *)

Section SubConst.
Variable p : pattern.
Variable z : str.
Hypothesis width_pos : 0 < width p.
Hypothesis z_width : length z = width p.
Hypothesis z_match : match_atoms (atoms p) z = true.

Lemma sub_const_alike (l : str) : Forall2 alike l (sub p (template z) l).
Proof.
  remember (length l) as n eqn:Hn. revert l Hn.
  induction n as [n IH] using lt_wf_ind. intros [|c l] Hn.
  - rewrite sub_nil by assumption. constructor.
  - destruct (match_atoms (atoms p) (c :: l)) eqn:H0.
    + destruct (match_split _ _ H0) as (m & rest & E & Hl & Hm).
      rewrite E, sub_hit by assumption. unfold template at 1.
      apply Forall2_app.
      * apply match_atoms_same with (p := atoms p); auto.
      * apply (IH (length rest)); auto.
        subst n. rewrite E, length_app. lia.
    + rewrite sub_miss by assumption. constructor; [now left|].
      apply (IH (length l)); auto. subst n. simpl. lia.
Qed.

Hypothesis plain : plain_literals p = true.

Lemma sub_const_idem (l : str) :
  sub p (template z) (sub p (template z) l) = sub p (template z) l.
Proof.
  remember (length l) as n eqn:Hn. revert l Hn.
  induction n as [n IH] using lt_wf_ind. intros [|c l] Hn.
  - now rewrite !sub_nil.
  - destruct (match_atoms (atoms p) (c :: l)) eqn:H0.
    + destruct (match_split _ _ H0) as (m & rest & E & Hl & Hm).
      rewrite E, sub_hit by assumption. unfold template at 2 4.
      rewrite sub_hit by assumption. unfold template at 1. f_equal.
      apply (IH (length rest)); auto.
      subst n. rewrite E, length_app. lia.
    + rewrite sub_miss by assumption.
      rewrite sub_miss.
      * f_equal. apply (IH (length l)); auto. subst n. simpl. lia.
      * rewrite <- H0. symmetry. apply match_atoms_alike; [exact plain|].
        constructor; [now left|apply sub_const_alike].
Qed.

Lemma search_sub_const (l : str) (gs : list str) :
  search p l = Some gs ->
  search p (sub p (template z) l) = Some (groups p z).
Proof.
  induction l as [|c l IH]; simpl.
  - rewrite match_nil by assumption. discriminate.
  - destruct (match_atoms (atoms p) (c :: l)) eqn:H0.
    + intros _. destruct (match_split _ _ H0) as (m & rest & E & Hl & Hm).
      rewrite E, sub_hit by assumption. unfold template at 1.
      destruct z as [|d z']; [simpl in z_width; lia|].
      simpl. change (d :: z' ++ ?x) with ((d :: z') ++ x).
      rewrite match_atoms_app by exact z_width. rewrite z_match.
      rewrite <- z_width.
      rewrite firstn_app, firstn_all, Nat.sub_diag. simpl.
      now rewrite app_nil_r.
    + intros H. rewrite sub_miss by assumption. simpl.
      replace (match_atoms (atoms p) (c :: sub p (template z) l)) with false.
      * now apply IH.
      * rewrite <- H0. apply match_atoms_alike; [exact plain|].
        constructor; [now left|apply sub_const_alike].
Qed.
End SubConst.

Lemma search_some (p : pattern) (l : str) (gs : list str) :
  search p l = Some gs ->
  exists m, gs = groups p m /\ length m = width p
            /\ match_atoms (atoms p) m = true.
Proof.
  induction l as [|c l IH]; simpl.
  - destruct (match_atoms (atoms p) []) eqn:H0; [|discriminate].
    intros [= <-]. exists []. destruct (atoms p) eqn:E; [|discriminate].
    unfold width. rewrite E. auto.
  - destruct (match_atoms (atoms p) (c :: l)) eqn:H0; [|exact IH].
    intros [= <-]. exists (firstn (width p) (c :: l)).
    pose proof (match_atoms_length _ _ H0) as Hlen.
    repeat split.
    + rewrite length_firstn. unfold width. lia.
    + unfold width. now rewrite <- match_atoms_firstn.
Qed.

(** [search] stops at the first stop of the scan. *)
Lemma search_scan (p : pattern) (pre m rest : str) :
  0 < width p ->
  length m = width p ->
  match_atoms (atoms p) m = true ->
  (forall i, i < length pre -> ~ occ p (pre ++ m ++ rest) i) ->
  search p (pre ++ m ++ rest) = Some (groups p m).
Proof.
  intros Hw Hl Hm. induction pre as [|c pre IH]; intros Hpre.
  - simpl app. destruct m as [|d m]; [simpl in Hl; lia|].
    simpl. change (d :: m ++ rest) with ((d :: m) ++ rest).
    rewrite match_atoms_app by exact Hl. rewrite Hm, <- Hl.
    rewrite firstn_app, firstn_all, Nat.sub_diag. simpl.
    now rewrite app_nil_r.
  - simpl. destruct (match_atoms (atoms p) (c :: pre ++ m ++ rest)) eqn:H0.
    + exfalso. apply (Hpre 0); [simpl; lia|exact H0].
    + apply IH. intros i Hi. apply (Hpre (S i)). simpl. lia.
Qed.

(** ** The shape of the two patterns *)

Ltac explode m H :=
  repeat (destruct m as [|? m]; simpl in H; try discriminate H; try lia).

Ltac split_accepts H :=
  cbn -[isdecimal N.eqb] in H;
  repeat match type of H with
         | (_ && _) = true => let H1 := fresh "A" in
                              apply andb_prop in H as [H1 H];
                              try (apply N.eqb_eq in H1; subst)
         end;
  try (apply N.eqb_eq in H; subst).

Lemma adjust_timecode_vtt_eq (line : str) :
  adjust_timecode_vtt line =
  match search VTT_TIMECODE_PATTERN line with
  | Some gs => sub VTT_TIMECODE_PATTERN (template (new_timecode gs)) line
  | None => line
  end.
Proof. reflexivity. Qed.

Lemma vtt_width : width VTT_TIMECODE_PATTERN = 29.
Proof. reflexivity. Qed.

Lemma srt_width : width SRT_TIMECODE_PATTERN = 12.
Proof. reflexivity. Qed.

Lemma new_timecode_zero_hours (m : str) :
  length m = 29 ->
  match_atoms (atoms VTT_TIMECODE_PATTERN) m = true ->
  new_timecode (groups VTT_TIMECODE_PATTERN m) = zero_hours m.
Proof.
  intros Hl Hm. explode m Hl. split_accepts Hm. reflexivity.
Qed.

Lemma zero_hours_match (m : str) :
  length m = 29 ->
  match_atoms (atoms VTT_TIMECODE_PATTERN) m = true ->
  length (zero_hours m) = 29
  /\ match_atoms (atoms VTT_TIMECODE_PATTERN) (zero_hours m) = true
  /\ zero_hours (zero_hours m) = zero_hours m.
Proof.
  intros Hl Hm. explode m Hl. split_accepts Hm.
  repeat split.
  cbn -[isdecimal N.eqb].
  repeat match goal with H : isdecimal _ = true |- _ => rewrite H; clear H end.
  reflexivity.
Qed.

Lemma vtt_plain : plain_literals VTT_TIMECODE_PATTERN = true.
Proof. reflexivity. Qed.

Lemma srt_plain : plain_literals SRT_TIMECODE_PATTERN = true.
Proof. reflexivity. Qed.

Ltac explode_digits :=
  repeat match goal with
         | H : digits _ ?s |- _ =>
             let L := fresh "L" in let D := fresh "D" in
             destruct H as [L D]; explode s L; cbn -[isdecimal] in D
         end;
  repeat match goal with
         | H : (_ && _) = true |- _ =>
             let H1 := fresh "A" in apply andb_prop in H as [H1 H]
         end.

Ltac use_digits :=
  cbn -[isdecimal N.eqb];
  repeat match goal with H : isdecimal _ = true |- _ => rewrite H; clear H end.

(** A match of the VTT pattern is a range of two timecodes, and the other
    way round. *)
Lemma vtt_match_range (m : str) :
  length m = 29 ->
  match_atoms (atoms VTT_TIMECODE_PATTERN) m = true ->
  exists h1 m1 s1 f1 h2 m2 s2 f2,
    m = vtt_range h1 m1 s1 f1 h2 m2 s2 f2
    /\ digits 2 h1 /\ digits 2 m1 /\ digits 2 s1 /\ digits 3 f1
    /\ digits 2 h2 /\ digits 2 m2 /\ digits 2 s2 /\ digits 3 f2.
Proof.
  intros Hl Hm. explode m Hl. split_accepts Hm.
  match goal with
  | |- context [ [?a0; ?a1; _; ?b0; ?b1; _; ?c0; ?c1; _; ?d0; ?d1; ?d2;
                  _; _; _; _; _;
                  ?e0; ?e1; _; ?f0; ?f1; _; ?g0; ?g1; _; ?h0; ?h1; ?h2] ] =>
      exists [a0; a1], [b0; b1], [c0; c1], [d0; d1; d2],
             [e0; e1], [f0; f1], [g0; g1], [h0; h1; h2]
  end.
  unfold digits. cbn -[isdecimal].
  repeat match goal with H : isdecimal _ = true |- _ => rewrite H; clear H end.
  repeat split.
Qed.

Lemma vtt_range_match (h1 m1 s1 f1 h2 m2 s2 f2 : str) :
  digits 2 h1 -> digits 2 m1 -> digits 2 s1 -> digits 3 f1 ->
  digits 2 h2 -> digits 2 m2 -> digits 2 s2 -> digits 3 f2 ->
  length (vtt_range h1 m1 s1 f1 h2 m2 s2 f2) = 29
  /\ match_atoms (atoms VTT_TIMECODE_PATTERN)
       (vtt_range h1 m1 s1 f1 h2 m2 s2 f2) = true.
Proof.
  intros. explode_digits. split; [reflexivity|]. use_digits. reflexivity.
Qed.

Lemma zero_hours_range (h1 m1 s1 f1 h2 m2 s2 f2 : str) :
  digits 2 h1 -> digits 2 m1 -> digits 2 s1 -> digits 3 f1 ->
  digits 2 h2 -> digits 2 m2 -> digits 2 s2 -> digits 3 f2 ->
  zero_hours (vtt_range h1 m1 s1 f1 h2 m2 s2 f2)
  = vtt_range (lit "00") m1 s1 f1 (lit "00") m2 s2 f2.
Proof. intros. explode_digits. reflexivity. Qed.

(** The replacement string of [adjust_timecode_vtt] holds digits, colons,
    periods, blanks, [-] and [>] only: no backslash, so [sub] inserts it
    as it is. *)
Lemma new_timecode_no_backslash (m : str) :
  length m = 29 ->
  match_atoms (atoms VTT_TIMECODE_PATTERN) m = true ->
  existsb (N.eqb 92) (new_timecode (groups VTT_TIMECODE_PATTERN m)) = false.
Proof.
  intros Hl Hm. rewrite new_timecode_zero_hours by assumption.
  explode m Hl. split_accepts Hm.
  cbn -[isdecimal N.eqb].
  repeat match goal with
         | H : isdecimal ?c = true |- context [N.eqb 92 ?c] =>
             destruct (N.eqb_spec 92 c) as [<-|_]; [discriminate H|]; clear H
         end.
  reflexivity.
Qed.

(** *** The hour-zeroing rewrite on a scanned line *)

Lemma adjust_timecode_vtt_no_match (line : str) :
  has_match VTT_TIMECODE_PATTERN line = false ->
  adjust_timecode_vtt line = line.
Proof.
  intros H. rewrite adjust_timecode_vtt_eq.
  apply search_none in H. now rewrite H.
Qed.

Lemma adjust_timecode_vtt_scan (pre m : str) (hits : list (str * str))
    (l tl : str) :
  scan VTT_TIMECODE_PATTERN l ((pre, m) :: hits) tl ->
  adjust_timecode_vtt l
  = rebuild (fun _ => zero_hours m) ((pre, m) :: hits) tl.
Proof.
  intros H. rewrite adjust_timecode_vtt_eq.
  assert (Hs : search VTT_TIMECODE_PATTERN l
               = Some (groups VTT_TIMECODE_PATTERN m)
               /\ length m = 29
               /\ match_atoms (atoms VTT_TIMECODE_PATTERN) m = true).
  { inversion H; subst. repeat split; auto.
    apply search_scan; auto. rewrite vtt_width. lia. }
  destruct Hs as (-> & Hl & Hm).
  assert (Hw : 0 < width VTT_TIMECODE_PATTERN) by (rewrite vtt_width; lia).
  rewrite (sub_scan VTT_TIMECODE_PATTERN _ Hw l _ tl H).
  unfold template. now rewrite new_timecode_zero_hours.
Qed.

(** A line with one occurrence: its hours are zeroed and nothing else
    changes. *)
Lemma adjust_timecode_vtt_single (pre m tl : str) :
  scan VTT_TIMECODE_PATTERN (pre ++ m ++ tl) [(pre, m)] tl ->
  adjust_timecode_vtt (pre ++ m ++ tl) = pre ++ zero_hours m ++ tl.
Proof.
  intros H. rewrite (adjust_timecode_vtt_scan _ _ _ _ _ H). unfold rebuild. simpl.
  now rewrite app_nil_r, <- app_assoc.
Qed.

(** C8.  Zeroing the hours of a line twice gives the same line as zeroing
    them once: [adjust_timecode_vtt (adjust_timecode_vtt x)] equals
    [adjust_timecode_vtt x] for every line [x]. *)
Theorem adjust_timecode_vtt_idempotent (x : str) :
  adjust_timecode_vtt (adjust_timecode_vtt x) = adjust_timecode_vtt x.
Proof.
  rewrite (adjust_timecode_vtt_eq x).
  destruct (search VTT_TIMECODE_PATTERN x) as [gs|] eqn:Hs.
  - destruct (search_some _ _ _ Hs) as (m & E & Hl & Hm).
    rewrite vtt_width in Hl.
    pose proof (new_timecode_zero_hours m Hl Hm) as Hz.
    destruct (zero_hours_match m Hl Hm) as (Hzl & Hzm & Hzz).
    rewrite E, Hz, adjust_timecode_vtt_eq.
    assert (Hw : 0 < width VTT_TIMECODE_PATTERN) by (rewrite vtt_width; lia).
    rewrite (search_sub_const VTT_TIMECODE_PATTERN (zero_hours m) Hw Hzl Hzm
               vtt_plain x gs Hs).
    rewrite new_timecode_zero_hours, Hzz by assumption.
    now apply sub_const_idem; auto using vtt_plain.
  - now rewrite adjust_timecode_vtt_eq, Hs.
Qed.

(** *** The punctuation rewrite on a scanned line *)

Lemma none_before_spec (p : pattern) (l : str) (n : nat) :
  none_before p l n = true -> forall i, i < n -> ~ occ p l i.
Proof.
  unfold none_before, occ. intros H i Hi Ho.
  rewrite forallb_forall in H. specialize (H i). rewrite Ho in H.
  assert (In i (seq 0 n)) by (apply in_seq; lia). now apply H in H0.
Qed.

Lemma occ_bound (p : pattern) (l : str) (i : nat) :
  0 < width p -> occ p l i -> i + width p <= length l.
Proof.
  unfold occ, occb, width. intros Hw H. apply match_atoms_length in H.
  rewrite length_skipn in H. lia.
Qed.

Lemma overlap_free_spec (p : pattern) (l : str) :
  0 < width p ->
  overlap_free p l = true ->
  forall i j, occ p l i -> occ p l j -> i < j -> i + width p <= j.
Proof.
  intros Hw H i j Hi Hj Hij.
  destruct (le_lt_dec (i + width p) j) as [|Hlt]; auto. exfalso.
  unfold overlap_free in H. rewrite forallb_forall in H.
  pose proof (occ_bound p l i Hw Hi) as Hb.
  assert (Hin : In i (seq 0 (length l))) by (apply in_seq; lia).
  apply H in Hin. unfold occ in Hi, Hj.
  rewrite Hi in Hin. simpl in Hin. rewrite forallb_forall in Hin.
  assert (Hjn : In j (seq (S i) (width p - 1))) by (apply in_seq; lia).
  apply Hin in Hjn. now rewrite Hj in Hjn.
Qed.

Lemma occ_app_skip (p : pattern) (pre l : str) (i : nat) :
  occ p (pre ++ l) (length pre + i) <-> occ p l i.
Proof.
  unfold occ, occb. rewrite skipn_app.
  replace (length pre + i - length pre) with i by lia.
  rewrite skipn_all2 by lia. reflexivity.
Qed.

Lemma overlap_free_complete (p : pattern) (l : str) :
  (forall i j, occ p l i -> occ p l j -> i < j -> i + width p <= j) ->
  overlap_free p l = true.
Proof.
  intros H. unfold overlap_free. apply forallb_forall. intros i _.
  destruct (occb p l i) eqn:Ei; simpl; auto.
  apply forallb_forall. intros j Hj. apply in_seq in Hj.
  destruct (occb p l j) eqn:Ej; simpl; auto.
  specialize (H i j Ei Ej). lia.
Qed.

(** Where no two occurrences overlap, the scan stops at every occurrence. *)
Lemma scan_covers (p : pattern) (l : str) (hits : list (str * str)) (tl : str) :
  scan p l hits tl ->
  (forall i j, occ p l i -> occ p l j -> i < j -> i + width p <= j) ->
  forall off i, occ p l i -> In (off + i) (stop_offsets off hits).
Proof.
  induction 1 as [l H|pre m rest hits tl Hl Hm Hpre _ IH]; intros Hof off i Hi.
  - now destruct (H i).
  - simpl.
    assert (H0 : occ p (pre ++ m ++ rest) (length pre)).
    { replace (length pre) with (length pre + 0) by lia.
      apply occ_app_skip. unfold occ, occb. simpl.
      rewrite match_atoms_app by exact Hl. exact Hm. }
    destruct (lt_eq_lt_dec i (length pre)) as [[Hlt| ->]|Hgt].
    + now destruct (Hpre i Hlt).
    + now left.
    + right. pose proof (Hof _ _ H0 Hi Hgt) as Hle. rewrite <- Hl in Hle.
      replace (off + i)
        with (off + length pre + length m + (i - length pre - length m)) by lia.
      apply IH.
      * intros a b Ha Hb Hab.
        assert (length pre + (length m + a) + width p
                <= length pre + (length m + b)); [|lia].
        apply Hof; [| |lia]; now apply occ_app_skip, occ_app_skip.
      * apply (occ_app_skip p m rest), (occ_app_skip p pre (m ++ rest)).
        replace (length pre + (length m + (i - length pre - length m)))
          with i by lia.
        exact Hi.
Qed.

Lemma srt_repl_comma_to_period (m : str) :
  length m = 12 ->
  match_atoms (atoms SRT_TIMECODE_PATTERN) m = true ->
  (let gs := groups SRT_TIMECODE_PATTERN m in
   group gs 1 ++ lit ":" ++ group gs 2 ++ lit ":" ++ group gs 3
     ++ lit "." ++ group gs 4) = comma_to_period m
  /\ length (comma_to_period m) = 12
  /\ match_atoms (atoms SRT_TIMECODE_PATTERN) (comma_to_period m) = false
  /\ Forall2 comma_or_same m (comma_to_period m).
Proof.
  intros Hl Hm. explode m Hl. split_accepts Hm.
  repeat split.
  - use_digits. reflexivity.
  - cbn. repeat constructor; now right.
Qed.


Lemma srt_timecode_match (hh mm ss fff : str) :
  digits 2 hh -> digits 2 mm -> digits 2 ss -> digits 3 fff ->
  length (srt_timecode hh mm ss fff) = 12
  /\ match_atoms (atoms SRT_TIMECODE_PATTERN) (srt_timecode hh mm ss fff) = true
  /\ comma_to_period (srt_timecode hh mm ss fff) = vtt_timecode hh mm ss fff.
Proof.
  intros. explode_digits. repeat split. use_digits. reflexivity.
Qed.

Lemma srt_width_pos : 0 < width SRT_TIMECODE_PATTERN.
Proof. rewrite srt_width. lia. Qed.

Lemma srt_line_hit (m rest : str) :
  length m = 12 ->
  match_atoms (atoms SRT_TIMECODE_PATTERN) m = true ->
  srt_line (m ++ rest) = comma_to_period m ++ srt_line rest.
Proof.
  intros Hl Hm. unfold srt_line.
  rewrite sub_hit by (auto using srt_width_pos).
  f_equal. now apply srt_repl_comma_to_period.
Qed.


(** A full SRT range: both timecodes are rewritten, whatever follows. *)
Lemma srt_line_full_range (h1 m1 s1 f1 h2 m2 s2 f2 tail : str) :
  digits 2 h1 -> digits 2 m1 -> digits 2 s1 -> digits 3 f1 ->
  digits 2 h2 -> digits 2 m2 -> digits 2 s2 -> digits 3 f2 ->
  srt_line (srt_timecode h1 m1 s1 f1 ++ lit " --> "
              ++ srt_timecode h2 m2 s2 f2 ++ tail)
  = vtt_timecode h1 m1 s1 f1 ++ lit " --> " ++ vtt_timecode h2 m2 s2 f2
      ++ srt_line tail.
Proof.
  intros A1 A2 A3 A4 B1 B2 B3 B4.
  destruct (srt_timecode_match h1 m1 s1 f1 A1 A2 A3 A4) as (La & Ma & <-).
  destruct (srt_timecode_match h2 m2 s2 f2 B1 B2 B3 B4) as (Lb & Mb & <-).
  rewrite srt_line_hit by assumption. f_equal.
  unfold srt_line at 1. rewrite sub_prefix; [|apply srt_width_pos|].
  - f_equal. fold (srt_line (srt_timecode h2 m2 s2 f2 ++ tail)).
    now apply srt_line_hit.
  - intros i Hi. unfold occ, occb.
    do 5 (destruct i as [|i]; [cbn; discriminate|]).
    simpl in Hi. lia.
Qed.

Lemma srt_line_comma_or_same (l : str) : Forall2 comma_or_same l (srt_line l).
Proof.
  remember (length l) as n eqn:Hn. revert l Hn.
  induction n as [n IH] using lt_wf_ind. intros [|c l] Hn.
  - unfold srt_line. rewrite sub_nil by apply srt_width_pos. constructor.
  - destruct (match_atoms (atoms SRT_TIMECODE_PATTERN) (c :: l)) eqn:H0.
    + destruct (match_split _ _ H0) as (m & rest & E & Hl & Hm).
      rewrite srt_width in Hl.
      rewrite E, srt_line_hit by assumption. apply Forall2_app.
      * now apply srt_repl_comma_to_period.
      * apply (IH (length rest)); auto. subst n. rewrite E, length_app. lia.
    + unfold srt_line. rewrite sub_miss by (auto using srt_width_pos).
      constructor; [now left|]. apply (IH (length l)); auto.
      subst n. simpl. lia.
Qed.

(** A period is accepted by no atom of the SRT pattern, so a match in the
    rewritten text was a match before. *)
Lemma srt_match_back (x y : str) :
  Forall2 comma_or_same x y ->
  match_atoms (atoms SRT_TIMECODE_PATTERN) y = true ->
  match_atoms (atoms SRT_TIMECODE_PATTERN) x = true.
Proof.
  assert (G : forall p, forallb (fun a => negb (accepts a 46%N)) p = true ->
            forall x y, Forall2 comma_or_same x y ->
                        match_atoms p y = true -> match_atoms p x = true).
  { induction p as [|a p IH]; intros Hp x0 y0 H; simpl; auto.
    destruct H as [|c d x0 y0 Hcd H]; [auto|].
    simpl in Hp. apply andb_prop in Hp as [Ha Hp].
    intros Hy. apply andb_prop in Hy as [Hd Hy].
    rewrite (IH Hp _ _ H Hy), andb_true_r.
    destruct Hcd as [->|[-> ->]]; auto.
    rewrite Hd in Ha. discriminate. }
  apply G. reflexivity.
Qed.

Lemma srt_line_no_match (x : str) :
  overlap_free SRT_TIMECODE_PATTERN x = true ->
  forall i, ~ occ SRT_TIMECODE_PATTERN (srt_line x) i.
Proof.
  intros Hof. pose proof (overlap_free_spec _ _ srt_width_pos Hof) as H.
  clear Hof. rewrite srt_width in H.
  remember (length x) as n eqn:Hn. revert x Hn H.
  induction n as [n IH] using lt_wf_ind. intros [|c l] Hn H i.
  - unfold srt_line. rewrite sub_nil by apply srt_width_pos.
    unfold occ, occb. now rewrite skipn_nil.
  - destruct (match_atoms (atoms SRT_TIMECODE_PATTERN) (c :: l)) eqn:H0.
    + destruct (match_split _ _ H0) as (m & rest & E & Hl & Hm).
      rewrite srt_width in Hl.
      destruct (srt_repl_comma_to_period m Hl Hm) as (_ & Hcl & Hcm & _).
      destruct (le_lt_dec 12 i) as [Hi|Hi].
      * rewrite E, srt_line_hit by assumption.
        replace i with (length (comma_to_period m) + (i - 12)) by lia.
        rewrite occ_app_skip.
        apply (IH (length rest)); auto.
        { subst n. rewrite E, length_app. lia. }
        intros a b Ha Hb Hab.
        assert (length m + a + 12 <= length m + b); [|lia].
        apply H; [| |lia]; rewrite E; now apply occ_app_skip.
      * destruct i as [|i].
        { rewrite E, srt_line_hit by assumption. unfold occ, occb. simpl skipn.
          rewrite match_atoms_app by exact Hcl. now rewrite Hcm. }
        intros Hocc.
        assert (Hx : occ SRT_TIMECODE_PATTERN (c :: l) (S i)).
        { unfold occ, occb in *. revert Hocc. apply srt_match_back.
          apply Forall2_skipn, srt_line_comma_or_same. }
        specialize (H 0 (S i) H0 Hx). lia.
    + unfold srt_line. rewrite sub_miss by (auto using srt_width_pos).
      fold (srt_line l). destruct i as [|i]; unfold occ, occb; simpl skipn.
      * intros Hocc. rewrite (srt_match_back (c :: l) (c :: srt_line l)) in H0;
          [discriminate| |exact Hocc].
        constructor; [now left|apply srt_line_comma_or_same].
      * apply (IH (length l)); auto.
        { subst n. simpl. lia. }
        intros a b Ha Hb Hab.
        assert (S a + 12 <= S b); [|lia]. apply H; auto. lia.
Qed.

(** ** The claims on the two rewrites *)

(** C1.  [adjust_timecode_vtt] does not leave the text after the first
    range alone: on a line with two ranges the second one is replaced by
    the rewrite of the first, so its minutes, seconds and milliseconds are
    lost, where the claim has only the two hour fields of the first range
    changed. *)
Theorem adjust_timecode_vtt_second_range_lost :
  adjust_timecode_vtt
    (lit "01:02:03.456 --> 01:02:05.789 02:10:20.300 --> 02:10:25.000")
  = lit "00:02:03.456 --> 00:02:05.789 00:02:03.456 --> 00:02:05.789"
  /\ adjust_timecode_vtt
       (lit "01:02:03.456 --> 01:02:05.789 02:10:20.300 --> 02:10:25.000")
     <> lit "00:02:03.456 --> 00:02:05.789 02:10:20.300 --> 02:10:25.000".
Proof.
  split.
  - vm_compute. reflexivity.
  - intros H. vm_compute in H. discriminate H.
Qed.

(** C9, as stated, fails where two occurrences overlap: in
    [A --> B --> C] the range [B --> C] is an occurrence too, and it is not
    replaced by the rewrite of [A --> B]. *)
Lemma adjust_timecode_vtt_overlap_kept :
  let l := lit "01:02:03.456 --> 04:05:06.789 --> 07:08:09.000" in
  ~ (forall i, occ VTT_TIMECODE_PATTERN l i ->
               firstn 29 (skipn i (adjust_timecode_vtt l))
               = zero_hours (firstn 29 l)).
Proof.
  intros l H. specialize (H 17).
  assert (Ho : occ VTT_TIMECODE_PATTERN l 17) by (vm_compute; reflexivity).
  apply H in Ho. vm_compute in Ho. discriminate Ho.
Qed.

(** C9, amended.  On a line where the left-to-right scan stops at two or
    more occurrences of the VTT range pattern, [adjust_timecode_vtt]
    replaces each of these occurrences with the hour-zeroed rewrite of
    the first one, and keeps the text between them: the minutes, seconds
    and milliseconds of the later occurrences are those of the first. *)
Theorem adjust_timecode_vtt_overwrites_scanned
    (l pre1 m1 pre2 m2 : str) (hits : list (str * str)) (tl : str) :
  scan VTT_TIMECODE_PATTERN l ((pre1, m1) :: (pre2, m2) :: hits) tl ->
  adjust_timecode_vtt l
  = pre1 ++ zero_hours m1 ++ pre2 ++ zero_hours m1
      ++ rebuild (fun _ => zero_hours m1) hits tl
  /\ exists h1 a b c h2 d e f,
       m1 = vtt_range h1 a b c h2 d e f
       /\ zero_hours m1 = vtt_range (lit "00") a b c (lit "00") d e f.
Proof.
  intros H. split.
  - rewrite (adjust_timecode_vtt_scan _ _ _ _ _ H). unfold rebuild.
    cbn [flat_map fst snd]. now rewrite <- !app_assoc.
  - inversion H as [|? ? ? ? ? Hl Hm _ _]; subst.
    rewrite vtt_width in Hl.
    destruct (vtt_match_range m1 Hl Hm)
      as (h1 & a & b & c & h2 & d & e & f & -> & D).
    exists h1, a, b, c, h2, d, e, f. split; [reflexivity|].
    now apply zero_hours_range.
Qed.

Lemma adjust_timecode_vtt_overwrites_scanned_witness :
  let l := lit "01:02:03.456 --> 01:02:05.789 02:10:20.300 --> 02:10:25.000" in
  let m1 := lit "01:02:03.456 --> 01:02:05.789" in
  let m2 := lit "02:10:20.300 --> 02:10:25.000" in
  scan VTT_TIMECODE_PATTERN l [([], m1); (lit " ", m2)] []
  /\ adjust_timecode_vtt l
     = lit "00:02:03.456 --> 00:02:05.789 00:02:03.456 --> 00:02:05.789".
Proof.
  intros l m1 m2.
  assert (Hs : scan VTT_TIMECODE_PATTERN l [([], m1); (lit " ", m2)] []).
  { refine (scan_hit VTT_TIMECODE_PATTERN [] m1 (lit " " ++ m2 ++ []) _ []
              eq_refl eq_refl _ _).
    - apply none_before_spec. reflexivity.
    - refine (scan_hit VTT_TIMECODE_PATTERN (lit " ") m2 [] [] []
                eq_refl eq_refl _ _).
      + apply none_before_spec. reflexivity.
      + apply scan_done. apply has_match_false. reflexivity. }
  split; [exact Hs|].
  exact (proj1 (adjust_timecode_vtt_overwrites_scanned
                  l [] m1 (lit " ") m2 [] [] Hs)).
Defined.




(** C10, as stated, fails: rewriting the first of two overlapping
    occurrences leaves the second one in place, and a second pass
    rewrites it. *)
Lemma srt_line_not_idempotent :
  srt_line (srt_line (lit "00:00:00,123:45:67,890"))
  <> srt_line (lit "00:00:00,123:45:67,890").
Proof. intros H. vm_compute in H. discriminate H. Qed.

(** C10, amended.  On a line in which no two occurrences of the SRT
    pattern overlap, the punctuation rewrite is idempotent: the rewritten
    line holds no occurrence any more, so a second pass changes nothing. *)
Theorem srt_line_idempotent (x : str) :
  overlap_free SRT_TIMECODE_PATTERN x = true ->
  srt_line (srt_line x) = srt_line x.
Proof.
  intros H. unfold srt_line at 1.
  apply sub_no_match; [apply srt_width_pos|].
  apply has_match_false. now apply srt_line_no_match.
Qed.

Lemma srt_line_idempotent_witness :
  let x := lit "00:00:01,000 --> 00:00:02,500" in
  overlap_free SRT_TIMECODE_PATTERN x = true
  /\ srt_line (srt_line x) = srt_line x.
Proof.
  intros x. split; [reflexivity|].
  apply srt_line_idempotent. reflexivity.
Defined.

(** ** SRT to VTT conversion of a file *)

Lemma write_lines_lines (g : str -> str) (lines : list str) (out : str) :
  write_lines g (map Line lines) out = (true, out ++ concat (map g lines)).
Proof.
  revert out. induction lines as [|l lines IH]; intros out; simpl.
  - now rewrite app_nil_r.
  - now rewrite IH, <- app_assoc.
Qed.

Lemma write_lines_prefix (g : str -> str) (evs : list read_event) (out : str) :
  exists rest, snd (write_lines g evs out) = out ++ rest.
Proof.
  revert out. induction evs as [|[l|] evs IH]; intros out; simpl.
  - exists []. now rewrite app_nil_r.
  - destruct (IH (out ++ g l)) as [rest ->]. exists (g l ++ rest).
    now rewrite app_assoc.
  - exists []. now rewrite app_nil_r.
Qed.

(** Whenever the destination is opened it starts with the header, also
    when reading the source fails half way. *)
Lemma convert_srt_to_vtt_header (fs : filesystem) (input_path output_path : str)
    (ok : bool) (out : str) :
  convert_srt_to_vtt fs input_path output_path = (ok, Some out) ->
  firstn 8 out = lit "WEBVTT" ++ [newline; newline].
Proof.
  unfold convert_srt_to_vtt.
  destruct (open_read fs input_path) as [evs|]; [|discriminate].
  destruct (open_write fs output_path); [|discriminate].
  intros H.
  destruct (write_lines_prefix srt_line evs (lit "WEBVTT" ++ [newline; newline]))
    as [rest Hr].
  cbv zeta in H. rewrite Hr in H. injection H as _ E. rewrite <- E.
  reflexivity.
Qed.

(** C3.  When both files open and the source reads as the lines [lines]
    (possibly none), [convert_srt_to_vtt] succeeds and the destination
    holds the header [WEBVTT] and a blank line followed by the lines in
    order, each with the punctuation rewrite applied; every written line
    differs from its source only by commas turned into periods, so no
    hour field is zeroed. *)
Theorem convert_srt_to_vtt_output (fs : filesystem)
    (input_path output_path : str) (lines : list str) :
  open_read fs input_path = Some (map Line lines) ->
  open_write fs output_path = true ->
  convert_srt_to_vtt fs input_path output_path
  = (true, Some (lit "WEBVTT" ++ [newline; newline]
                   ++ concat (map srt_line lines)))
  /\ Forall (fun l => Forall2 comma_or_same l (srt_line l)) lines.
Proof.
  intros Hr Hw. split.
  - unfold convert_srt_to_vtt. rewrite Hr, Hw, write_lines_lines. simpl.
    reflexivity.
  - apply Forall_forall. intros l _. apply srt_line_comma_or_same.
Qed.

Lemma convert_srt_to_vtt_output_witness :
  let src := [lit "1" ++ [newline];
              lit "01:00:01,000 --> 01:00:02,500" ++ [newline];
              lit "Hi" ++ [newline]; [newline]] in
  let fs := {| open_read := fun _ => Some (map Line src);
               open_write := fun _ => true |} in
  (open_read fs (lit "in/clip.srt") = Some (map Line src)
   /\ open_write fs (lit "out/clip_1.vtt") = true)
  /\ convert_srt_to_vtt fs (lit "in/clip.srt") (lit "out/clip_1.vtt")
     = (true, Some (lit "WEBVTT" ++ [newline; newline] ++ lit "1" ++ [newline]
                      ++ lit "01:00:01.000 --> 01:00:02.500" ++ [newline]
                      ++ lit "Hi" ++ [newline; newline])).
Proof.
  intros src fs. split; [split; reflexivity|].
  exact (proj1 (convert_srt_to_vtt_output fs (lit "in/clip.srt")
                  (lit "out/clip_1.vtt") src eq_refl eq_refl)).
Defined.

Lemma convert_srt_to_vtt_empty_source :
  let fs := {| open_read := fun _ => Some []; open_write := fun _ => true |} in
  convert_srt_to_vtt fs (lit "in/empty.srt") (lit "out/empty_1.vtt")
  = (true, Some (lit "WEBVTT" ++ [newline; newline])).
Proof. reflexivity. Qed.

(** ** Name derivation *)

(** C4.  The base name is not the file name without its extension: the
    [replace] calls remove every [.mp4.vtt], [.vtt] or [.srt] of the
    name, also inside it, where the claim strips the trailing one and
    changes no other part of the name. *)
Theorem base_name_inner_extension_removed :
  select_files (lit "vtt") [lit "show.vtt.old.vtt"] = [lit "show.vtt.old.vtt"]
  /\ base_name (lit "vtt") (lit "show.vtt.old.vtt") = lit "show.old"
  /\ base_name (lit "vtt") (lit "show.vtt.old.vtt") <> lit "show.vtt.old"
  /\ select_files (lit "srt") [lit "show.srt.old.srt"] = [lit "show.srt.old.srt"]
  /\ base_name (lit "srt") (lit "show.srt.old.srt") = lit "show.old"
  /\ base_name (lit "srt") (lit "show.srt.old.srt") <> lit "show.srt.old".
Proof.
  repeat split; try (vm_compute; reflexivity);
    intros H; vm_compute in H; discriminate H.
Qed.

(** A selected name in capitals keeps its extension. *)
Lemma base_name_capitals_kept :
  select_files (lit "vtt") [lit "MOVIE.VTT"] = [lit "MOVIE.VTT"]
  /\ base_name (lit "vtt") (lit "MOVIE.VTT") = lit "MOVIE.VTT".
Proof. split; vm_compute; reflexivity. Qed.

Lemma base_name_scenarios :
  base_name (lit "vtt") (lit "show.mp4.vtt") = lit "show"
  /\ base_name (lit "vtt") (lit "movie.vtt") = lit "movie"
  /\ base_name (lit "srt") (lit "clip.srt") = lit "clip".
Proof. repeat split; vm_compute; reflexivity. Qed.

(** ** Output names *)

Lemma to_uint_normal (n : N) : Decimal.unorm (N.to_uint n) = N.to_uint n.
Proof.
  rewrite <- (DecimalN.Unsigned.to_of (N.to_uint n)).
  now rewrite DecimalN.Unsigned.of_to.
Qed.

Lemma to_uint_no_leading_zero (n : N) (d : Decimal.uint) :
  n <> 0%N -> N.to_uint n <> Decimal.D0 d.
Proof.
  intros Hn E. pose proof (to_uint_normal n) as Hu. rewrite E in Hu.
  rewrite DecimalFacts.unorm_D0 in Hu.
  assert (Hd : d = Decimal.Nil \/ d <> Decimal.Nil)
    by (destruct d; [left; reflexivity|right; discriminate..]).
  destruct Hd as [->|Hne].
  - apply Hn. rewrite <- (DecimalN.Unsigned.of_to n), E. reflexivity.
  - pose proof (DecimalFacts.nb_digits_unorm d Hne) as Hle.
    rewrite Hu in Hle. simpl in Hle. lia.
Qed.

(** [format_int] does not pad: the first character of a positive number
    is a digit other than [0]. *)
Lemma format_int_no_padding (n : N) :
  n <> 0%N ->
  exists c rest, format_int n = c :: rest /\ (49 <= c <= 57)%N.
Proof.
  intros Hn. unfold format_int.
  pose proof (to_uint_no_leading_zero n) as H0.
  destruct (N.to_uint n) as [|d|d|d|d|d|d|d|d|d|d] eqn:E;
    [ | now destruct (H0 d Hn)
      | simpl; eexists; eexists; (split; [reflexivity|]); simpl; lia .. ].
  destruct n as [|p]; [easy|]. simpl in E.
  now apply DecimalPos.Unsigned.to_uint_nonnil in E.
Qed.

(** C5, as stated, fails on a prefix with blanks around it: the sequential
    name is built from the stripped prefix, not from the configured one
    (and likewise for a name typed into the dialog). *)
Lemma rename_file_prefix_stripped :
  let opts := {| sequential_var := true; prefix_var := lit " ep";
                 rename_var := false; use_threads_var := false |} in
  rename_file opts (fun _ => None) (lit "out") (lit "movie") 1
  <> path_join (lit "out") (prefix_var opts ++ format_int 1 ++ lit ".vtt").
Proof. intros opts H. vm_compute in H. discriminate H. Qed.

(** C5, amended.  The output path is [os.path.join] of the output
    directory and a name chosen by the first policy that applies:
    sequential numbering gives the configured prefix with surrounding
    whitespace stripped (possibly empty), then the index, then [.vtt];
    otherwise interactive rename gives [{base}.vtt] when the dialog is
    cancelled or the answer is blank, and the stripped answer followed by
    [_{index}.vtt] when it is not; otherwise the name is
    [{base}_{index}.vtt].  The index is written in decimal without
    padding. *)
Theorem rename_file_policy (opts : options) (askstring : str -> option str)
    (output_directory file_name : str) (index : N) :
  let prompt := lit "Enter new name for " ++ file_name
                  ++ lit " (leave blank to keep original name):" in
  let result := rename_file opts askstring output_directory file_name index in
  (sequential_var opts = true ->
   result = path_join output_directory
              (strip (prefix_var opts) ++ format_int index ++ lit ".vtt"))
  /\ (sequential_var opts = false -> rename_var opts = true ->
      (askstring prompt = None
       \/ exists a, askstring prompt = Some a /\ strip a = []) ->
      result = path_join output_directory (file_name ++ lit ".vtt"))
  /\ (sequential_var opts = false -> rename_var opts = true ->
      forall a, askstring prompt = Some a -> strip a <> [] ->
      result = path_join output_directory
                 (strip a ++ lit "_" ++ format_int index ++ lit ".vtt"))
  /\ (sequential_var opts = false -> rename_var opts = false ->
      result = path_join output_directory
                 (file_name ++ lit "_" ++ format_int index ++ lit ".vtt"))
  /\ (index <> 0%N ->
      exists c rest, format_int index = c :: rest /\ (49 <= c <= 57)%N).
Proof.
  intros prompt result. subst result. unfold rename_file. fold prompt.
  repeat split.
  - intros ->. destruct (strip (prefix_var opts)); [reflexivity|].
    now rewrite <- app_assoc.
  - intros -> -> [->|(a & -> & E)]; [reflexivity|]. now rewrite E.
  - intros -> -> a -> Ha. unfold str_eqb.
    match goal with
    | |- context [list_eq_dec ?d ?x ?y] =>
        destruct (list_eq_dec d x y) as [E|_]; [contradiction|]
    end.
    now rewrite <- !app_assoc.
  - intros -> ->. reflexivity.
  - apply format_int_no_padding.
Qed.

Lemma rename_file_policy_witness :
  let seq_opts := {| sequential_var := true; prefix_var := lit " ep ";
                     rename_var := true; use_threads_var := false |} in
  let ask_opts := {| sequential_var := false; prefix_var := [];
                     rename_var := true; use_threads_var := false |} in
  let def_opts := {| sequential_var := false; prefix_var := lit "ep";
                     rename_var := false; use_threads_var := false |} in
  rename_file seq_opts (fun _ => Some (lit "x")) (lit "out") (lit "movie") 3
    = lit "out/ep3.vtt"
  /\ rename_file ask_opts (fun _ => Some (lit "  ")) (lit "out") (lit "movie") 3
     = lit "out/movie.vtt"
  /\ rename_file ask_opts (fun _ => Some (lit " final ")) (lit "out")
       (lit "movie") 3
     = lit "out/final_3.vtt"
  /\ rename_file def_opts (fun _ => None) (lit "out") (lit "movie") 2
     = lit "out/movie_2.vtt"
  /\ (exists c rest, format_int 12 = c :: rest /\ (49 <= c <= 57)%N).
Proof.
  intros seq_opts ask_opts def_opts.
  split; [|split; [|split; [|split]]].
  - exact (proj1 (rename_file_policy seq_opts (fun _ => Some (lit "x"))
                    (lit "out") (lit "movie") 3) eq_refl).
  - refine (proj1 (proj2 (rename_file_policy ask_opts
                            (fun _ => Some (lit "  "))
                            (lit "out") (lit "movie") 3)) eq_refl eq_refl _).
    right. exists (lit "  "). split; reflexivity.
  - refine (proj1 (proj2 (proj2 (rename_file_policy ask_opts
                                   (fun _ => Some (lit " final "))
                                   (lit "out") (lit "movie") 3)))
              eq_refl eq_refl (lit " final ") eq_refl _).
    vm_compute. discriminate.
  - exact (proj1 (proj2 (proj2 (proj2 (rename_file_policy def_opts
                                         (fun _ => None)
                                         (lit "out") (lit "movie") 2))))
             eq_refl eq_refl).
  - refine (proj2 (proj2 (proj2 (proj2 (rename_file_policy def_opts
                                          (fun _ => None)
                                          (lit "out") (lit "movie") 12)))) _).
    discriminate.
Defined.

(** ** The batch *)

Lemma make_tasks_length (opts : options) (askstring : str -> option str)
    (choice input_dir output_dir : str) (files : list str) (index : N) :
  length (make_tasks opts askstring choice input_dir output_dir files index)
  = length files.
Proof.
  revert index. induction files as [|f files IH]; intros index; simpl; auto.
Qed.

Lemma tally_counts (st : counts) (r : bool) :
  outcomes (tally st r) = outcomes st ++ [r]
  /\ processed_count (tally st r)
     = processed_count st + (if r then 1 else 0)
  /\ failed_count (tally st r) = failed_count st + (if r then 0 else 1).
Proof. destruct r; simpl; repeat split; lia. Qed.

Lemma sequential_loop_counts (fs : filesystem) (choice : str) (ts : list task)
    (st : counts) :
  let st' := sequential_loop fs choice ts st in
  let rs := map (run_task fs choice) ts in
  outcomes st' = outcomes st ++ rs
  /\ processed_count st' = processed_count st + count_occ bool_dec rs true
  /\ failed_count st' = failed_count st + count_occ bool_dec rs false.
Proof.
  revert st. induction ts as [|t ts IH]; intros st; simpl.
  - rewrite app_nil_r. repeat split; lia.
  - destruct (IH (tally st (run_task fs choice t))) as (Ho & Hp & Hf).
    destruct (tally_counts st (run_task fs choice t)) as (To & Tp & Tf).
    rewrite Ho, Hp, Hf, To, Tp, Tf, <- app_assoc.
    destruct (run_task fs choice t); simpl; repeat split; lia.
Qed.

Lemma count_occ_bool (rs : list bool) :
  count_occ bool_dec rs true + count_occ bool_dec rs false = length rs.
Proof. induction rs as [|[|] rs IH]; simpl; lia. Qed.

Lemma collect_all (fs : filesystem) (choice : str) (ts : list task)
    (st : counts) :
  collect (map (fun t => Some (run_task fs choice t)) ts) st
  = Some (sequential_loop fs choice ts st).
Proof. revert st. induction ts as [|t ts IH]; intros st; simpl; auto. Qed.

Lemma set_future_length (i : nat) (r : bool) (futures : list (option bool)) :
  length (set_future i r futures) = length futures.
Proof.
  revert i. induction futures as [|f futures IH]; intros [|i]; simpl; auto.
Qed.

Lemma set_future_nth (i : nat) (r : bool) (futures : list (option bool))
    (j : nat) :
  nth_error (set_future i r futures) j
  = if j =? i
    then match nth_error futures j with Some _ => Some (Some r) | None => None end
    else nth_error futures j.
Proof.
  revert i j. induction futures as [|f futures IH]; intros [|i] [|j]; simpl; auto.
  now destruct (j =? i).
Qed.

(** The futures after the workers have gone through [sched]. *)
Lemma run_pool_nth (fs : filesystem) (choice : str) (ts : list task)
    (sched : list nat) (futures : list (option bool)) :
  length futures = length ts ->
  forall j,
    nth_error
      (fold_left
         (fun futures i =>
            match nth_error ts i with
            | Some t => set_future i (run_task fs choice t) futures
            | None => futures
            end) sched futures) j
    = if existsb (Nat.eqb j) sched
      then option_map (fun t => Some (run_task fs choice t)) (nth_error ts j)
      else nth_error futures j.
Proof.
  revert futures. induction sched as [|a sched IH]; intros futures Hl j; simpl; auto.
  rewrite IH.
  - destruct (existsb (Nat.eqb j) sched); [now rewrite orb_true_r|].
    rewrite orb_false_r.
    destruct (nth_error ts a) as [t|] eqn:Ea.
    + rewrite set_future_nth. destruct (Nat.eqb_spec j a) as [->|]; auto.
      rewrite Ea. simpl.
      destruct (nth_error futures a) eqn:Ef; auto.
      apply nth_error_None in Ef.
      assert (nth_error ts a <> None) by congruence.
      apply nth_error_Some in H. lia.
    + destruct (Nat.eqb_spec j a) as [->|]; auto.
      rewrite Ea. simpl. apply nth_error_None in Ea.
      apply nth_error_None. lia.
  - destruct (nth_error ts a); auto. now rewrite set_future_length.
Qed.

(** When the workers complete every task, all futures hold their result,
    whatever the order. *)
Lemma run_pool_complete (fs : filesystem) (choice : str) (ts : list task)
    (sched : list nat) :
  Permutation sched (seq 0 (length ts)) ->
  run_pool fs choice ts sched = map (fun t => Some (run_task fs choice t)) ts.
Proof.
  intros Hp. apply nth_error_ext. intros j. unfold run_pool.
  rewrite run_pool_nth by apply repeat_length.
  rewrite nth_error_map.
  destruct (existsb (Nat.eqb j) sched) eqn:E; auto.
  destruct (nth_error ts j) as [t|] eqn:Ej.
  - exfalso. assert (Hj : j < length ts).
    { apply nth_error_Some. congruence. }
    assert (Hin : In j sched).
    { apply Permutation_in with (l := seq 0 (length ts)).
      - now apply Permutation_sym.
      - apply in_seq. lia. }
    assert (existsb (Nat.eqb j) sched = true).
    { apply existsb_exists. exists j. split; auto. apply Nat.eqb_refl. }
    congruence.
  - simpl. apply nth_error_None. rewrite repeat_length.
    now apply nth_error_None.
Qed.

(** C6.  A batch over N >= 1 matching files ends with one outcome per
    file, in both branches: the outcomes are the results of the N tasks,
    each counted once as a success or as a failure, the two counters sum
    to N, and a failed task does not keep the later ones from being run
    and counted.  In the pool branch this holds for every order in which
    the workers complete the tasks. *)
Theorem process_files_counts (opts : options) (askstring : str -> option str)
    (fs : filesystem) (cpu_count : option N) (sched : list nat)
    (listing : list str) (choice input_dir output_dir : str) :
  let files := select_files choice listing in
  let ts := make_tasks opts askstring choice input_dir output_dir files 1 in
  files <> [] ->
  (pool_size opts cpu_count (length files) = None
   \/ Permutation sched (seq 0 (length files))) ->
  exists st,
    process_files opts askstring fs cpu_count sched listing choice
      input_dir output_dir = Complete st
    /\ outcomes st = map (run_task fs choice) ts
    /\ length (outcomes st) = length files
    /\ processed_count st = count_occ bool_dec (outcomes st) true
    /\ failed_count st = count_occ bool_dec (outcomes st) false
    /\ processed_count st + failed_count st = length files.
Proof.
  intros files ts Hne Hs.
  exists (sequential_loop fs choice ts no_counts).
  destruct (sequential_loop_counts fs choice ts no_counts) as (Ho & Hp & Hf).
  simpl in Ho, Hp, Hf.
  assert (Hlen : length (map (run_task fs choice) ts) = length files).
  { rewrite length_map. apply make_tasks_length. }
  split.
  - unfold process_files. fold files. fold ts.
    destruct (Nat.eqb_spec (length files) 0) as [E|_].
    { destruct files; [now destruct Hne|discriminate E]. }
    destruct (pool_size opts cpu_count (length files)) as [w|] eqn:Ew; auto.
    destruct Hs as [Hs|Hs]; [discriminate Hs|].
    rewrite run_pool_complete, collect_all; auto.
    unfold ts. now rewrite make_tasks_length.
  - rewrite Ho, Hp, Hf. repeat split; auto.
    rewrite <- Hlen. apply count_occ_bool.
Qed.

Lemma process_files_counts_witness :
  let opts := {| sequential_var := false; prefix_var := [];
                 rename_var := false; use_threads_var := true |} in
  let fs := {| open_read := fun path =>
                 if str_eqb path (lit "in/a.vtt") then None
                 else Some [Line (lit "01:02:03.456 --> 01:02:05.789")];
               open_write := fun _ => true |} in
  let listing := [lit "a.vtt"; lit "notes.txt"; lit "b.vtt"] in
  (select_files (lit "vtt") listing <> []
   /\ Permutation [1; 0] (seq 0 (length (select_files (lit "vtt") listing))))
  /\ exists st,
       process_files opts (fun _ => None) fs (Some 4%N) [1; 0] listing
         (lit "vtt") (lit "in") (lit "out") = Complete st
       /\ outcomes st = [false; true]
       /\ processed_count st + failed_count st = 2.
Proof.
  intros opts fs listing.
  assert (Hne : select_files (lit "vtt") listing <> []) by discriminate.
  assert (Hp : Permutation [1; 0]
                 (seq 0 (length (select_files (lit "vtt") listing))))
    by apply perm_swap.
  split; [split; assumption|].
  destruct (process_files_counts opts (fun _ => None) fs (Some 4%N) [1; 0]
              listing (lit "vtt") (lit "in") (lit "out") Hne (or_intror Hp))
    as (st & Hpf & Ho & _ & _ & _ & Hsum).
  exists st. repeat split; assumption.
Defined.

(** C7, as stated, fails on a machine with one processor: the pool is
    taken and has one worker. *)
Lemma pool_of_one_worker :
  ~ (forall opts cpu_count total_files w,
        pool_size opts cpu_count total_files = Some w -> (2 <= w)%N).
Proof.
  intros H.
  specialize (H {| sequential_var := false; prefix_var := [];
                   rename_var := false; use_threads_var := true |}
                (Some 1%N) 2 1%N eq_refl).
  lia.
Qed.

Lemma collect_unfinished (n : nat) (st : counts) :
  collect (repeat None (S n)) st = None.
Proof. reflexivity. Qed.

(** C7, amended.  [process_files] goes through the worker pool exactly
    when concurrency is enabled and more than one file is queued: then,
    and only then, its result is read from the futures that the workers
    complete, so that it waits for ever when no worker completes a task.
    The pool has min(n, 4) workers, where n is the processor count, or 2
    when the count is not known: between 1 and 4 workers.  Otherwise the
    files are processed one at a time in enumeration order, whatever the
    workers would do. *)
Theorem process_files_pool_path (opts : options)
    (askstring : str -> option str) (fs : filesystem) (cpu_count : option N)
    (sched : list nat) (listing : list str)
    (choice input_dir output_dir : str) :
  let files := select_files choice listing in
  let ts := make_tasks opts askstring choice input_dir output_dir files 1 in
  (pool_size opts cpu_count (length files) <> None
   <-> use_threads_var opts = true /\ 1 < length files)
  /\ (forall w, pool_size opts cpu_count (length files) = Some w ->
        ((cpu_count = None \/ cpu_count = Some 0%N -> w = 2%N)
         /\ (forall n, cpu_count = Some n -> n <> 0%N -> w = N.min n 4)
         /\ (1 <= w <= 4)%N)
        /\ process_files opts askstring fs cpu_count sched listing choice
             input_dir output_dir
           = match collect (run_pool fs choice ts sched) no_counts with
             | Some st => Complete st
             | None => Blocked
             end)
  /\ (pool_size opts cpu_count (length files) = None -> files <> [] ->
      exists st,
        process_files opts askstring fs cpu_count sched listing choice
          input_dir output_dir = Complete st
        /\ st = sequential_loop fs choice ts no_counts
        /\ outcomes st = map (run_task fs choice) ts)
  /\ (process_files opts askstring fs cpu_count [] listing choice
        input_dir output_dir = Blocked
      <-> use_threads_var opts = true /\ 1 < length files).
Proof.
  intros files ts.
  assert (Hiff : pool_size opts cpu_count (length files) <> None
                 <-> use_threads_var opts = true /\ 1 < length files).
  { unfold pool_size. destruct (use_threads_var opts); simpl.
    - destruct (Nat.ltb_spec 1 (length files)); split; try easy.
      intros [_ H']. lia.
    - split; [easy|]. intros [H' _]. discriminate H'. }
  assert (Hsize : forall w, pool_size opts cpu_count (length files) = Some w ->
                    w = max_workers cpu_count).
  { unfold pool_size. intros w.
    destruct (use_threads_var opts && (1 <? length files)); congruence. }
  split; [exact Hiff|]. split; [|split].
  - intros w Hw. split.
    + rewrite (Hsize w Hw). unfold max_workers. repeat split.
      * intros [->| ->]; reflexivity.
      * intros n -> Hn. destruct (N.eqb_spec n 0); [contradiction|reflexivity].
      * destruct cpu_count as [n|]; [destruct (N.eqb_spec n 0)|]; lia.
      * destruct cpu_count as [n|]; [destruct (N.eqb_spec n 0)|]; lia.
    + assert (Hl : 1 < length files) by (apply Hiff; congruence).
      unfold process_files. fold files. fold ts.
      destruct (Nat.eqb_spec (length files) 0) as [E|_]; [lia|].
      now rewrite Hw.
  - intros Hp Hne. exists (sequential_loop fs choice ts no_counts).
    repeat split.
    + unfold process_files. fold files. fold ts.
      destruct (Nat.eqb_spec (length files) 0) as [E|_].
      { destruct files; [now destruct Hne|discriminate E]. }
      now rewrite Hp.
    + apply (sequential_loop_counts fs choice ts no_counts).
  - rewrite <- Hiff. unfold process_files. fold files.
    set (ts0 := make_tasks opts askstring choice input_dir output_dir files 1).
    destruct (Nat.eqb_spec (length files) 0) as [E|E].
    + split; [discriminate|]. intros H. apply Hiff in H. lia.
    + destruct (pool_size opts cpu_count (length files)) as [w|] eqn:Ew.
      * split; [discriminate|]. intros _.
        assert (Hl : 1 < length files) by (apply Hiff; congruence).
        unfold run_pool. simpl fold_left.
        assert (Ht : length ts0 = length files) by apply make_tasks_length.
        destruct (length ts0) as [|n]; [lia|].
        now rewrite collect_unfinished.
      * split; [discriminate|]. intros H. now destruct H.
Qed.

Lemma process_files_pool_path_witness :
  let opts := {| sequential_var := false; prefix_var := [];
                 rename_var := false; use_threads_var := true |} in
  let fs := {| open_read := fun _ => Some [Line (lit "Hello")];
               open_write := fun _ => true |} in
  let two := [lit "a.srt"; lit "b.srt"] in
  (pool_size opts (Some 8%N) (length (select_files (lit "srt") [lit "a.srt"]))
     = None
   /\ select_files (lit "srt") [lit "a.srt"] <> [])
  /\ (exists st,
        process_files opts (fun _ => None) fs (Some 8%N) [] [lit "a.srt"]
          (lit "srt") (lit "in") (lit "out") = Complete st
        /\ outcomes st = [true])
  /\ pool_size opts (Some 1%N) (length (select_files (lit "srt") two))
     = Some 1%N
  /\ process_files opts (fun _ => None) fs (Some 1%N) [1; 0] two
       (lit "srt") (lit "in") (lit "out")
     = Complete {| processed_count := 2; failed_count := 0;
                   outcomes := [true; true] |}
  /\ process_files opts (fun _ => None) fs (Some 1%N) [] two
       (lit "srt") (lit "in") (lit "out")
     = Blocked.
Proof.
  intros opts fs two.
  assert (Hp : pool_size opts (Some 8%N)
                 (length (select_files (lit "srt") [lit "a.srt"])) = None)
    by reflexivity.
  assert (Hne : select_files (lit "srt") [lit "a.srt"] <> []) by discriminate.
  assert (Hw : pool_size opts (Some 1%N)
                 (length (select_files (lit "srt") two)) = Some 1%N)
    by reflexivity.
  split; [split; assumption|]. split; [|split; [exact Hw|split]].
  - destruct (proj1 (proj2 (proj2
               (process_files_pool_path opts (fun _ => None) fs (Some 8%N)
                  [] [lit "a.srt"] (lit "srt") (lit "in") (lit "out"))))
               Hp Hne)
      as (st & Hpf & _ & Ho).
    exists st. split; assumption.
  - exact (proj2 (proj1 (proj2
             (process_files_pool_path opts (fun _ => None) fs (Some 1%N)
                [1; 0] two (lit "srt") (lit "in") (lit "out"))) 1%N Hw)).
  - apply (proj2 (proj2 (proj2
             (process_files_pool_path opts (fun _ => None) fs (Some 1%N)
                [] two (lit "srt") (lit "in") (lit "out"))))).
    split; [reflexivity|]. simpl. lia.
Defined.

(** ** Further properties of the two rewrites *)

Lemma vtt_width_pos : 0 < width VTT_TIMECODE_PATTERN.
Proof. rewrite vtt_width. lia. Qed.

Lemma has_match_alike (p : pattern) (x y : str) :
  plain_literals p = true ->
  Forall2 alike x y ->
  has_match p x = has_match p y.
Proof.
  intros Hp H. induction H as [|a b x y Hab H IH]; simpl; auto.
  rewrite IH. f_equal. apply match_atoms_alike; [exact Hp|].
  now constructor.
Qed.

Lemma match_has_arrow (m : str) :
  length m = 29 ->
  match_atoms (atoms VTT_TIMECODE_PATTERN) m = true ->
  In 62%N m.
Proof.
  intros Hl Hm. explode m Hl. split_accepts Hm. simpl. tauto.
Qed.

Lemma has_match_arrow (l : str) :
  has_match VTT_TIMECODE_PATTERN l = true -> In 62%N l.
Proof.
  induction l as [|c l IH]; cbn [has_match].
  - discriminate.
  - destruct (match_atoms (atoms VTT_TIMECODE_PATTERN) (c :: l)) eqn:H0.
    + intros _. destruct (match_split _ _ H0) as (m & rest & E & Hl & Hm).
      rewrite vtt_width in Hl. rewrite E. apply in_or_app. left.
      now apply match_has_arrow.
    + rewrite orb_false_l. intros H. right. now apply IH.
Qed.

Lemma adjust_timecode_vtt_alike (line : str) :
  Forall2 alike line (adjust_timecode_vtt line).
Proof.
  rewrite adjust_timecode_vtt_eq.
  destruct (search VTT_TIMECODE_PATTERN line) as [gs|] eqn:Hs.
  - destruct (search_some _ _ _ Hs) as (m & E & Hl & Hm).
    rewrite vtt_width in Hl.
    destruct (zero_hours_match m Hl Hm) as (Hzl & Hzm & _).
    rewrite E, new_timecode_zero_hours by assumption.
    apply sub_const_alike; auto using vtt_width_pos.
  - apply Forall2_alike_refl.
Qed.

Lemma adjust_timecode_vtt_length (line : str) :
  length (adjust_timecode_vtt line) = length line.
Proof. symmetry. exact (Forall2_length (adjust_timecode_vtt_alike line)). Qed.

Lemma srt_line_length (line : str) : length (srt_line line) = length line.
Proof. symmetry. exact (Forall2_length (srt_line_comma_or_same line)). Qed.

(** The hour-zeroing rewrite keeps the length of the line and every
    character that is not a decimal digit; a digit may only become a
    digit. *)
Theorem adjust_timecode_vtt_digits_only (line : str) :
  Forall2 alike line (adjust_timecode_vtt line)
  /\ length (adjust_timecode_vtt line) = length line.
Proof.
  split; [apply adjust_timecode_vtt_alike|apply adjust_timecode_vtt_length].
Qed.

(** A line without an occurrence of the range pattern is returned as it
    is; in particular every line without the character [>]. *)
Theorem adjust_timecode_vtt_unchanged (line : str) :
  has_match VTT_TIMECODE_PATTERN line = false \/ ~ In 62%N line ->
  adjust_timecode_vtt line = line.
Proof.
  intros [H|H]; apply adjust_timecode_vtt_no_match; auto.
  destruct (has_match VTT_TIMECODE_PATTERN line) eqn:E; auto.
  now apply has_match_arrow in E.
Qed.

Lemma adjust_timecode_vtt_unchanged_witness :
  let line := lit "Hello, it is 01:02:03 now" ++ [newline] in
  (has_match VTT_TIMECODE_PATTERN line = false \/ ~ In 62%N line)
  /\ adjust_timecode_vtt line = line.
Proof.
  intros line.
  assert (H : has_match VTT_TIMECODE_PATTERN line = false \/ ~ In 62%N line)
    by (left; reflexivity).
  split; [exact H|]. exact (adjust_timecode_vtt_unchanged line H).
Defined.

(** A line on which the scan stops once: the text before and after the
    range is kept and the range has its two hour fields set to [00], with
    the minutes, seconds and milliseconds it had. *)
Theorem adjust_timecode_vtt_one_range (l pre m tl : str) :
  scan VTT_TIMECODE_PATTERN l [(pre, m)] tl ->
  l = pre ++ m ++ tl
  /\ adjust_timecode_vtt l = pre ++ zero_hours m ++ tl
  /\ exists h1 a b c h2 d e f,
       m = vtt_range h1 a b c h2 d e f
       /\ zero_hours m = vtt_range (lit "00") a b c (lit "00") d e f.
Proof.
  intros H.
  assert (E : l = pre ++ m ++ tl
              /\ length m = 29
              /\ match_atoms (atoms VTT_TIMECODE_PATTERN) m = true).
  { inversion H as [|? ? rest ? ? Hl Hm _ Hr]; subst.
    inversion Hr; subst. rewrite vtt_width in Hl. auto. }
  destruct E as (E & Hl & Hm). split; [exact E|]. split.
  - rewrite (adjust_timecode_vtt_scan _ _ _ _ _ H). unfold rebuild.
    cbn [flat_map fst snd]. now rewrite app_nil_r, <- app_assoc.
  - destruct (vtt_match_range m Hl Hm)
      as (h1 & a & b & c & h2 & d & e & f & -> & D).
    exists h1, a, b, c, h2, d, e, f. split; [reflexivity|].
    now apply zero_hours_range.
Qed.

Lemma adjust_timecode_vtt_one_range_witness :
  let m := lit "10:02:03.456 --> 10:02:05.789" in
  let tl := lit " align:start" ++ [newline] in
  scan VTT_TIMECODE_PATTERN (lit "- " ++ m ++ tl) [(lit "- ", m)] tl
  /\ adjust_timecode_vtt (lit "- " ++ m ++ tl)
     = lit "- 00:02:03.456 --> 00:02:05.789 align:start" ++ [newline].
Proof.
  intros m tl.
  assert (Hs : scan VTT_TIMECODE_PATTERN (lit "- " ++ m ++ tl)
                 [(lit "- ", m)] tl).
  { refine (scan_hit VTT_TIMECODE_PATTERN (lit "- ") m tl [] tl
              eq_refl eq_refl _ _).
    - apply none_before_spec. reflexivity.
    - apply scan_done. apply has_match_false. reflexivity. }
  split; [exact Hs|].
  exact (proj1 (proj2 (adjust_timecode_vtt_one_range _ _ _ _ Hs))).
Defined.

Lemma zero_hours_groups (m : str) :
  length m = 29 ->
  match_atoms (atoms VTT_TIMECODE_PATTERN) m = true ->
  group (groups VTT_TIMECODE_PATTERN (zero_hours m)) 1 = lit "00"
  /\ group (groups VTT_TIMECODE_PATTERN (zero_hours m)) 4 = lit "00".
Proof. intros Hl Hm. explode m Hl. split; reflexivity. Qed.

(** After the rewrite the leftmost range of the line, if there is one, has
    both hour fields equal to [00]; and the rewrite neither creates nor
    removes ranges: the rewritten line has one exactly when the line
    has. *)
Theorem adjust_timecode_vtt_hours_zero (line : str) :
  has_match VTT_TIMECODE_PATTERN (adjust_timecode_vtt line)
  = has_match VTT_TIMECODE_PATTERN line
  /\ forall gs,
       search VTT_TIMECODE_PATTERN (adjust_timecode_vtt line) = Some gs ->
       group gs 1 = lit "00" /\ group gs 4 = lit "00".
Proof.
  split.
  - symmetry. apply has_match_alike; [apply vtt_plain|].
    apply adjust_timecode_vtt_alike.
  - intros gs. rewrite adjust_timecode_vtt_eq.
    destruct (search VTT_TIMECODE_PATTERN line) as [gs0|] eqn:Hs.
    + destruct (search_some _ _ _ Hs) as (m & E & Hl & Hm).
      rewrite vtt_width in Hl.
      destruct (zero_hours_match m Hl Hm) as (Hzl & Hzm & _).
      rewrite E, new_timecode_zero_hours by assumption.
      rewrite (search_sub_const VTT_TIMECODE_PATTERN (zero_hours m)
                 vtt_width_pos Hzl Hzm vtt_plain line gs0 Hs).
      intros [= <-]. now apply zero_hours_groups.
    + rewrite Hs. discriminate.
Qed.

Lemma adjust_timecode_vtt_hours_zero_witness :
  let line := lit "x 07:02:03.456 --> 08:02:05.789" in
  search VTT_TIMECODE_PATTERN (adjust_timecode_vtt line)
  = Some [lit "00"; lit "02"; lit "03.456"; lit "00"; lit "02"; lit "05.789"]
  /\ group [lit "00"; lit "02"; lit "03.456"; lit "00"; lit "02"; lit "05.789"]
       1 = lit "00".
Proof.
  intros line.
  assert (H : search VTT_TIMECODE_PATTERN (adjust_timecode_vtt line)
              = Some [lit "00"; lit "02"; lit "03.456";
                      lit "00"; lit "02"; lit "05.789"])
    by (vm_compute; reflexivity).
  split; [exact H|].
  exact (proj1 (proj2 (adjust_timecode_vtt_hours_zero line) _ H)).
Defined.

Lemma comma_or_same_no_comma (x y : str) :
  Forall2 comma_or_same x y -> ~ In 44%N x -> y = x.
Proof.
  induction 1 as [|a b x y Hab H IH]; intros Hn; auto.
  simpl in Hn. rewrite IH by tauto.
  destruct Hab as [->|[-> _]]; [reflexivity|]. exfalso. apply Hn. now left.
Qed.

(** The punctuation rewrite keeps the length of the line, and a line
    without a comma (a sequence number, a blank line, cue text without
    commas, a VTT timecode line) passes through unchanged. *)
Theorem srt_line_no_comma (line : str) :
  length (srt_line line) = length line
  /\ (~ In 44%N line -> srt_line line = line).
Proof.
  split.
  - apply srt_line_length.
  - apply comma_or_same_no_comma, srt_line_comma_or_same.
Qed.

Lemma srt_line_no_comma_witness :
  let line := lit "01:02:03.456 --> 01:02:05.789" ++ [newline] in
  ~ In 44%N line /\ srt_line line = line.
Proof.
  intros line.
  assert (H : ~ In 44%N line).
  { intros H. repeat (destruct H as [H|H]; [discriminate H|]). exact H. }
  split; [exact H|]. exact (proj2 (srt_line_no_comma line) H).
Defined.

Lemma srt_line_range (h1 m1 s1 f1 h2 m2 s2 f2 tail : str) :
  digits 2 h1 -> digits 2 m1 -> digits 2 s1 -> digits 3 f1 ->
  digits 2 h2 -> digits 2 m2 -> digits 2 s2 -> digits 3 f2 ->
  srt_line (srt_timecode h1 m1 s1 f1 ++ lit " --> "
              ++ srt_timecode h2 m2 s2 f2 ++ tail)
  = vtt_range h1 m1 s1 f1 h2 m2 s2 f2 ++ srt_line tail.
Proof.
  intros. rewrite srt_line_full_range by assumption.
  unfold vtt_range, vtt_timecode. now rewrite <- !app_assoc.
Qed.

(** A full SRT range [HH:MM:SS,mmm --> HH:MM:SS,mmm], with any digits and
    whatever text follows it: both commas become periods, the digits and
    the arrow are kept and the rewrite goes on with the text after the
    range. *)
Theorem srt_line_range_rewritten (h1 m1 s1 f1 h2 m2 s2 f2 tail : str) :
  digits 2 h1 -> digits 2 m1 -> digits 2 s1 -> digits 3 f1 ->
  digits 2 h2 -> digits 2 m2 -> digits 2 s2 -> digits 3 f2 ->
  srt_line (srt_timecode h1 m1 s1 f1 ++ lit " --> "
              ++ srt_timecode h2 m2 s2 f2 ++ tail)
  = vtt_range h1 m1 s1 f1 h2 m2 s2 f2 ++ srt_line tail.
Proof. apply srt_line_range. Qed.

Lemma two_digits (a b : char) :
  isdecimal a = true -> isdecimal b = true -> digits 2 [a; b].
Proof. intros Ha Hb. split; [reflexivity|]. simpl. now rewrite Ha, Hb. Qed.

Lemma three_digits (a b c : char) :
  isdecimal a = true -> isdecimal b = true -> isdecimal c = true ->
  digits 3 [a; b; c].
Proof.
  intros Ha Hb Hc. split; [reflexivity|]. simpl. now rewrite Ha, Hb, Hc.
Qed.

Lemma srt_line_range_rewritten_witness :
  srt_line (lit "01:00:01,000 --> 01:00:02,500" ++ [newline])
  = lit "01:00:01.000 --> 01:00:02.500" ++ [newline].
Proof.
  exact (srt_line_range_rewritten
           (lit "01") (lit "00") (lit "01") (lit "000")
           (lit "01") (lit "00") (lit "02") (lit "500") [newline]
           (two_digits 48%N 49%N eq_refl eq_refl) (two_digits 48%N 48%N eq_refl eq_refl)
           (two_digits 48%N 49%N eq_refl eq_refl)
           (three_digits 48%N 48%N 48%N eq_refl eq_refl eq_refl)
           (two_digits 48%N 49%N eq_refl eq_refl) (two_digits 48%N 48%N eq_refl eq_refl)
           (two_digits 48%N 50%N eq_refl eq_refl)
           (three_digits 53%N 48%N 48%N eq_refl eq_refl eq_refl)).
Defined.

(** Conversion followed by hour-zeroing: a line holding an SRT range, then
    text without a timecode, becomes the VTT range with the same minutes,
    seconds and milliseconds and both hours [00], followed by that
    text. *)
Theorem adjust_timecode_vtt_after_srt_line
    (h1 m1 s1 f1 h2 m2 s2 f2 tail : str) :
  digits 2 h1 -> digits 2 m1 -> digits 2 s1 -> digits 3 f1 ->
  digits 2 h2 -> digits 2 m2 -> digits 2 s2 -> digits 3 f2 ->
  has_match SRT_TIMECODE_PATTERN tail = false ->
  has_match VTT_TIMECODE_PATTERN tail = false ->
  adjust_timecode_vtt
    (srt_line (srt_timecode h1 m1 s1 f1 ++ lit " --> "
                 ++ srt_timecode h2 m2 s2 f2 ++ tail))
  = vtt_range (lit "00") m1 s1 f1 (lit "00") m2 s2 f2 ++ tail.
Proof.
  intros A1 A2 A3 A4 B1 B2 B3 B4 Hs Hv.
  rewrite srt_line_range by assumption.
  unfold srt_line. rewrite sub_no_match by (auto using srt_width_pos).
  destruct (vtt_range_match h1 m1 s1 f1 h2 m2 s2 f2 A1 A2 A3 A4 B1 B2 B3 B4)
    as (Hl & Hm).
  assert (Hsc : scan VTT_TIMECODE_PATTERN
                  ([] ++ vtt_range h1 m1 s1 f1 h2 m2 s2 f2 ++ tail)
                  [([], vtt_range h1 m1 s1 f1 h2 m2 s2 f2)] tail).
  { apply scan_hit; auto.
    - simpl. intros i Hi. lia.
    - apply scan_done. now apply has_match_false. }
  simpl app in Hsc.
  rewrite (adjust_timecode_vtt_scan _ _ _ _ _ Hsc). unfold rebuild.
  cbn [flat_map fst snd app]. rewrite app_nil_r.
  now rewrite zero_hours_range.
Qed.

Lemma adjust_timecode_vtt_after_srt_line_witness :
  adjust_timecode_vtt
    (srt_line (lit "01:00:01,000 --> 01:00:02,500" ++ [newline]))
  = lit "00:00:01.000 --> 00:00:02.500" ++ [newline].
Proof.
  exact (adjust_timecode_vtt_after_srt_line
           (lit "01") (lit "00") (lit "01") (lit "000")
           (lit "01") (lit "00") (lit "02") (lit "500") [newline]
           (two_digits 48%N 49%N eq_refl eq_refl) (two_digits 48%N 48%N eq_refl eq_refl)
           (two_digits 48%N 49%N eq_refl eq_refl)
           (three_digits 48%N 48%N 48%N eq_refl eq_refl eq_refl)
           (two_digits 48%N 49%N eq_refl eq_refl) (two_digits 48%N 48%N eq_refl eq_refl)
           (two_digits 48%N 50%N eq_refl eq_refl)
           (three_digits 53%N 48%N 48%N eq_refl eq_refl eq_refl)
           eq_refl eq_refl).
Defined.

(** ** Further properties of the two file operations *)

Lemma write_lines_error (g : str -> str) (lines : list str)
    (evs : list read_event) (out : str) :
  write_lines g (map Line lines ++ ReadError :: evs) out
  = (false, out ++ concat (map g lines)).
Proof.
  revert out. induction lines as [|l lines IH]; intros out; simpl.
  - now rewrite app_nil_r.
  - now rewrite IH, <- app_assoc.
Qed.

Lemma write_lines_true (g : str -> str) (evs : list read_event) (out : str) :
  fst (write_lines g evs out) = true <-> exists lines, evs = map Line lines.
Proof.
  split.
  - revert out. induction evs as [|[l|] evs IH]; intros out; simpl.
    + intros _. now exists [].
    + intros H. destruct (IH _ H) as [lines ->]. now exists (l :: lines).
    + discriminate.
  - intros [lines ->]. now rewrite write_lines_lines.
Qed.

Lemma concat_map_length (g : str -> str) (lines : list str) :
  (forall l, length (g l) = length l) ->
  length (concat (map g lines)) = length (concat lines).
Proof.
  intros Hg. induction lines as [|l lines IH]; simpl; auto.
  now rewrite !length_app, Hg, IH.
Qed.

(** A success of either file operation means that the source opened,
    that every line of it was read and that the destination opened and
    holds the complete output.  The destination is left unopened exactly
    when one of the two files does not open (it is not opened when the
    source is missing), and the operation then reports failure. *)
Theorem file_operations_result (fs : filesystem) (input_path output_path : str) :
  (fst (process_vtt_file fs input_path output_path) = true ->
   exists lines,
     open_read fs input_path = Some (map Line lines)
     /\ open_write fs output_path = true
     /\ snd (process_vtt_file fs input_path output_path)
        = Some (concat (map adjust_timecode_vtt lines)))
  /\ (fst (convert_srt_to_vtt fs input_path output_path) = true ->
      exists lines,
        open_read fs input_path = Some (map Line lines)
        /\ open_write fs output_path = true
        /\ snd (convert_srt_to_vtt fs input_path output_path)
           = Some (lit "WEBVTT" ++ [newline; newline]
                     ++ concat (map srt_line lines)))
  /\ (snd (process_vtt_file fs input_path output_path) = None
      <-> open_read fs input_path = None \/ open_write fs output_path = false)
  /\ (snd (convert_srt_to_vtt fs input_path output_path) = None
      <-> open_read fs input_path = None \/ open_write fs output_path = false)
  /\ (open_read fs input_path = None \/ open_write fs output_path = false ->
      fst (process_vtt_file fs input_path output_path) = false
      /\ fst (convert_srt_to_vtt fs input_path output_path) = false).
Proof.
  unfold process_vtt_file, convert_srt_to_vtt.
  destruct (open_read fs input_path) as [evs|];
    destruct (open_write fs output_path); cbn [fst snd].
  - split; [|split; [|split; [|split]]].
    + intros H. apply write_lines_true in H as [lines ->].
      exists lines. now rewrite write_lines_lines.
    + intros H. apply write_lines_true in H as [lines ->].
      exists lines. now rewrite write_lines_lines.
    + split; [discriminate|]. intros [H|H]; discriminate H.
    + split; [discriminate|]. intros [H|H]; discriminate H.
    + intros [H|H]; discriminate H.
  - repeat split; auto; discriminate.
  - repeat split; auto; discriminate.
  - repeat split; auto; discriminate.
Qed.

Lemma file_operations_result_witness :
  let fs := {| open_read := fun p =>
                 if str_eqb p (lit "in/a.vtt")
                 then Some (map Line [lit "Hello" ++ [newline]])
                 else None;
               open_write := fun _ => true |} in
  (fst (process_vtt_file fs (lit "in/a.vtt") (lit "out/a_1.vtt")) = true
   /\ exists lines,
        open_read fs (lit "in/a.vtt") = Some (map Line lines)
        /\ open_write fs (lit "out/a_1.vtt") = true
        /\ snd (process_vtt_file fs (lit "in/a.vtt") (lit "out/a_1.vtt"))
           = Some (concat (map adjust_timecode_vtt lines)))
  /\ (open_read fs (lit "in/b.vtt") = None
      /\ fst (process_vtt_file fs (lit "in/b.vtt") (lit "out/b_2.vtt")) = false
      /\ snd (process_vtt_file fs (lit "in/b.vtt") (lit "out/b_2.vtt")) = None).
Proof.
  intros fs. split.
  - assert (H : fst (process_vtt_file fs (lit "in/a.vtt") (lit "out/a_1.vtt"))
                = true) by reflexivity.
    split; [exact H|].
    exact (proj1 (file_operations_result fs (lit "in/a.vtt")
                    (lit "out/a_1.vtt")) H).
  - assert (H : open_read fs (lit "in/b.vtt") = None) by reflexivity.
    split; [exact H|]. split.
    + exact (proj1 (proj2 (proj2 (proj2 (proj2
               (file_operations_result fs (lit "in/b.vtt")
                  (lit "out/b_2.vtt"))))) (or_introl H))).
    + apply (proj1 (proj2 (proj2 (file_operations_result fs (lit "in/b.vtt")
                                    (lit "out/b_2.vtt"))))).
      left. exact H.
Defined.

(** A read error in the middle of the source: the operation reports
    failure, and the destination keeps what was written before the error
    (after the header, for the conversion); the lines that follow the
    error are not written. *)
Theorem file_operations_partial_output (fs : filesystem)
    (input_path output_path : str) (lines : list str)
    (evs : list read_event) :
  open_read fs input_path = Some (map Line lines ++ ReadError :: evs) ->
  open_write fs output_path = true ->
  process_vtt_file fs input_path output_path
  = (false, Some (concat (map adjust_timecode_vtt lines)))
  /\ convert_srt_to_vtt fs input_path output_path
     = (false, Some (lit "WEBVTT" ++ [newline; newline]
                       ++ concat (map srt_line lines))).
Proof.
  intros Hr Hw. unfold process_vtt_file, convert_srt_to_vtt.
  rewrite Hr, Hw, !write_lines_error. split; reflexivity.
Qed.

Lemma file_operations_partial_output_witness :
  let evs := [Line (lit "1" ++ [newline]); ReadError;
              Line (lit "never read" ++ [newline])] in
  let fs := {| open_read := fun _ => Some evs; open_write := fun _ => true |} in
  convert_srt_to_vtt fs (lit "in/a.srt") (lit "out/a_1.vtt")
  = (false, Some (lit "WEBVTT" ++ [newline; newline] ++ lit "1" ++ [newline])).
Proof.
  intros evs fs.
  exact (proj2 (file_operations_partial_output fs (lit "in/a.srt")
                  (lit "out/a_1.vtt") [lit "1" ++ [newline]]
                  [Line (lit "never read" ++ [newline])] eq_refl eq_refl)).
Defined.

(** Zeroing the hours of a file whose lines are read as [lines]: the
    destination holds the rewritten lines in order, without a header, and
    the text written has as many characters as the lines read. *)
Theorem process_vtt_file_output (fs : filesystem)
    (input_path output_path : str) (lines : list str) :
  open_read fs input_path = Some (map Line lines) ->
  open_write fs output_path = true ->
  process_vtt_file fs input_path output_path
  = (true, Some (concat (map adjust_timecode_vtt lines)))
  /\ length (concat (map adjust_timecode_vtt lines)) = length (concat lines).
Proof.
  intros Hr Hw. split.
  - unfold process_vtt_file. now rewrite Hr, Hw, write_lines_lines.
  - apply concat_map_length. apply adjust_timecode_vtt_length.
Qed.

Lemma process_vtt_file_output_witness :
  let src := [lit "WEBVTT" ++ [newline]; [newline];
              lit "01:02:03.456 --> 01:02:05.789" ++ [newline];
              lit "Hello" ++ [newline]] in
  let fs := {| open_read := fun _ => Some (map Line src);
               open_write := fun _ => true |} in
  process_vtt_file fs (lit "in/show.mp4.vtt") (lit "out/show_1.vtt")
  = (true, Some (lit "WEBVTT" ++ [newline; newline]
                   ++ lit "00:02:03.456 --> 00:02:05.789" ++ [newline]
                   ++ lit "Hello" ++ [newline])).
Proof.
  intros src fs.
  exact (proj1 (process_vtt_file_output fs (lit "in/show.mp4.vtt")
                  (lit "out/show_1.vtt") src eq_refl eq_refl)).
Defined.

(** The text written by a successful conversion has eight characters
    more than the lines read, those of the header: the rewrite of the
    lines adds and removes nothing. *)
Theorem convert_srt_to_vtt_size (fs : filesystem)
    (input_path output_path : str) (lines : list str) :
  open_read fs input_path = Some (map Line lines) ->
  open_write fs output_path = true ->
  exists out,
    convert_srt_to_vtt fs input_path output_path = (true, Some out)
    /\ length out = 8 + length (concat lines).
Proof.
  intros Hr Hw. unfold convert_srt_to_vtt.
  rewrite Hr, Hw, write_lines_lines. cbn [fst snd].
  eexists. split; [reflexivity|].
  rewrite <- app_assoc, app_assoc, length_app.
  change (length (lit "WEBVTT" ++ [newline; newline])) with 8. f_equal.
  apply concat_map_length. apply srt_line_length.
Qed.

Lemma convert_srt_to_vtt_size_witness :
  let src := [lit "1" ++ [newline];
              lit "00:00:01,000 --> 00:00:02,500" ++ [newline]] in
  let fs := {| open_read := fun _ => Some (map Line src);
               open_write := fun _ => true |} in
  exists out,
    convert_srt_to_vtt fs (lit "in/clip.srt") (lit "out/clip_1.vtt")
    = (true, Some out)
    /\ length out = 40.
Proof.
  intros src fs.
  exact (convert_srt_to_vtt_size fs (lit "in/clip.srt") (lit "out/clip_1.vtt")
           src eq_refl eq_refl).
Defined.

(** ** Further properties of the name derivation *)

Lemma match_literal_self (m : str) : match_atoms (map Char m) m = true.
Proof. induction m as [|c m IH]; simpl; auto. now rewrite N.eqb_refl. Qed.

Lemma skipn_head {A} (i : nat) (l : list A) :
  i < length l -> exists c t, skipn i l = c :: t /\ In c l.
Proof.
  revert i. induction l as [|a l IH]; intros [|i] Hi; simpl in *; try lia.
  - exists a, l. auto.
  - destruct (IH i) as (c & t & E & Hc); [lia|]. exists c, t. auto.
Qed.

(** A pattern that starts with a literal period matches nowhere inside a
    text without a period. *)
Lemma occ_dot_prefix (p : pattern) (rest : list atom) (stem l : str) (i : nat) :
  atoms p = Char 46%N :: rest ->
  ~ In 46%N stem ->
  i < length stem ->
  ~ occ p (stem ++ l) i.
Proof.
  intros Hp Hn Hi. unfold occ, occb. rewrite skipn_app.
  destruct (skipn_head i stem Hi) as (c & t & -> & Hc).
  rewrite Hp. simpl. destruct (N.eqb_spec c 46) as [->|_]; [tauto|].
  discriminate.
Qed.

Lemma has_match_dot_prefix (p : pattern) (rest : list atom) (stem l : str) :
  atoms p = Char 46%N :: rest ->
  ~ In 46%N stem ->
  has_match p (stem ++ l) = has_match p l.
Proof.
  intros Hp. induction stem as [|c stem IH]; intros Hn; auto.
  simpl app. cbn [has_match]. rewrite IH by (simpl in Hn; tauto).
  rewrite Hp. simpl.
  destruct (N.eqb_spec c 46) as [->|_]; [simpl in Hn; tauto|reflexivity].
Qed.

Lemma replace_no_match (old new s : str) :
  old <> [] ->
  has_match {| atoms := map Char old; spans := [] |} s = false ->
  replace old new s = s.
Proof.
  intros Ho H. unfold replace. apply sub_no_match; auto.
  unfold width. simpl. rewrite length_map. destruct old; [easy|simpl; lia].
Qed.

Lemma replace_dot_suffix (old' stem : str) :
  ~ In 46%N stem ->
  replace (46%N :: old') [] (stem ++ 46%N :: old') = stem.
Proof.
  intros Hn. unfold replace.
  assert (Hw : 0 < width {| atoms := map Char (46%N :: old'); spans := [] |})
    by (unfold width; simpl; lia).
  rewrite sub_prefix; auto.
  - rewrite <- (app_nil_r (46%N :: old')) at 2.
    rewrite sub_hit; auto.
    + rewrite sub_nil by exact Hw. unfold template. now rewrite app_nil_r.
    + unfold width. simpl. now rewrite length_map.
    + apply (match_literal_self (46%N :: old')).
  - intros i Hi. now apply occ_dot_prefix with (rest := map Char old').
Qed.

Lemma base_name_stem (stem : str) :
  ~ In 46%N stem ->
  base_name (lit "vtt") (stem ++ lit ".vtt") = stem
  /\ base_name (lit "vtt") (stem ++ lit ".mp4.vtt") = stem
  /\ base_name (lit "srt") (stem ++ lit ".srt") = stem.
Proof.
  intros Hn. unfold base_name.
  change (is_vtt (lit "vtt")) with true. change (is_vtt (lit "srt")) with false.
  cbv iota. repeat split.
  - rewrite (replace_no_match (lit ".mp4.vtt")); [|discriminate|].
    + apply (replace_dot_suffix (lit "vtt")); assumption.
    + rewrite has_match_dot_prefix with (rest := map Char (lit "mp4.vtt"));
        auto.
  - rewrite (replace_dot_suffix (lit "mp4.vtt")) by assumption.
    apply replace_no_match; [discriminate|].
    rewrite <- (app_nil_r stem).
    rewrite has_match_dot_prefix with (rest := map Char (lit "vtt")); auto.
  - apply (replace_dot_suffix (lit "srt")); assumption.
Qed.

(** For a name made of a stem without a period and the extension, the
    base name is the stem: [.vtt] and [.mp4.vtt] are removed for the
    zero-hour operation, [.srt] for the conversion. *)
Theorem base_name_plain_stem (stem : str) :
  ~ In 46%N stem ->
  base_name (lit "vtt") (stem ++ lit ".vtt") = stem
  /\ base_name (lit "vtt") (stem ++ lit ".mp4.vtt") = stem
  /\ base_name (lit "srt") (stem ++ lit ".srt") = stem.
Proof. apply base_name_stem. Qed.

Lemma no_period_in_show : ~ In 46%N (lit "show").
Proof. intros H. repeat (destruct H as [H|H]; [discriminate H|]). exact H. Qed.

Lemma base_name_plain_stem_witness :
  ~ In 46%N (lit "show")
  /\ base_name (lit "vtt") (lit "show.mp4.vtt") = lit "show".
Proof.
  split; [exact no_period_in_show|].
  exact (proj1 (proj2 (base_name_plain_stem (lit "show") no_period_in_show))).
Defined.

Lemma startswith_nil (s : str) : startswith s [] = true.
Proof. now destruct s. Qed.

Lemma startswith_app (x y : str) : startswith (x ++ y) x = true.
Proof.
  induction x as [|c x IH]; cbn [startswith app].
  - now destruct y.
  - now rewrite N.eqb_refl, IH.
Qed.

Lemma endswith_app (x y : str) : endswith (x ++ y) y = true.
Proof. unfold endswith. rewrite rev_app_distr. apply startswith_app. Qed.

(** The selection ignores the case of the extension but the name
    derivation does not: a name in [.VTT] is taken for the zero-hour
    operation and keeps its extension in the base name. *)
Theorem base_name_upper_extension (stem : str) :
  ~ In 46%N stem ->
  select_files (lit "vtt") [stem ++ lit ".VTT"] = [stem ++ lit ".VTT"]
  /\ base_name (lit "vtt") (stem ++ lit ".VTT") = stem ++ lit ".VTT".
Proof.
  intros Hn. split.
  - unfold select_files. change (is_vtt (lit "vtt")) with true. cbv iota.
    cbn [filter]. unfold lower. rewrite map_app.
    change (map lower_char (lit ".VTT")) with (lit ".vtt").
    now rewrite endswith_app.
  - unfold base_name. change (is_vtt (lit "vtt")) with true. cbv iota.
    rewrite (replace_no_match (lit ".mp4.vtt")); [|discriminate|].
    + apply replace_no_match; [discriminate|].
      rewrite has_match_dot_prefix with (rest := map Char (lit "vtt")); auto.
    + rewrite has_match_dot_prefix with (rest := map Char (lit "mp4.vtt"));
        auto.
Qed.

Lemma base_name_upper_extension_witness :
  ~ In 46%N (lit "show")
  /\ select_files (lit "vtt") [lit "show.VTT"] = [lit "show.VTT"]
  /\ base_name (lit "vtt") (lit "show.VTT") = lit "show.VTT".
Proof.
  split; [exact no_period_in_show|].
  exact (base_name_upper_extension (lit "show") no_period_in_show).
Defined.

(** No file name is taken by both operations, and every name taken is a
    name of the listing with at least the four characters of its
    extension. *)
Theorem select_files_disjoint (listing : list str) (f : str) :
  In f (select_files (lit "vtt") listing) ->
  In f listing /\ 4 <= length f
  /\ ~ In f (select_files (lit "srt") listing).
Proof.
  unfold select_files.
  change (is_vtt (lit "vtt")) with true. change (is_vtt (lit "srt")) with false.
  cbv iota. intros H. apply filter_In in H as [Hin Hv].
  unfold endswith in Hv.
  assert (Hl : length (rev (lower f)) = length f)
    by (unfold lower; now rewrite length_rev, length_map).
  split; [exact Hin|]. split.
  - destruct (rev (lower f)) as [|a [|b [|c [|d r]]]];
      simpl in Hv, Hl; try discriminate Hv; try lia;
      repeat (apply andb_prop in Hv as [_ Hv]; try discriminate Hv).
  - intros Hs. apply filter_In in Hs as [_ Hs]. unfold endswith in Hs.
    destruct (rev (lower f)) as [|a [|b r]]; simpl in Hv, Hs;
      try discriminate Hv;
      try (rewrite andb_false_r in Hv; discriminate Hv).
    apply andb_prop in Hv as [_ Hv]. apply andb_prop in Hv as [Hv _].
    apply andb_prop in Hs as [_ Hs]. apply andb_prop in Hs as [Hs _].
    apply N.eqb_eq in Hv, Hs. congruence.
Qed.

Lemma select_files_disjoint_witness :
  let listing := [lit "a.vtt"; lit "b.srt"; lit "C.VTT"; lit "notes.txt"] in
  In (lit "C.VTT") (select_files (lit "vtt") listing)
  /\ ~ In (lit "C.VTT") (select_files (lit "srt") listing).
Proof.
  intros listing.
  assert (H : In (lit "C.VTT") (select_files (lit "vtt") listing))
    by (right; left; reflexivity).
  split; [exact H|].
  exact (proj2 (proj2 (select_files_disjoint listing (lit "C.VTT") H))).
Defined.

(** ** Further properties of the output names *)

Lemma lit_inj (a b : string) : lit a = lit b -> a = b.
Proof.
  unfold lit. intros H.
  apply (f_equal (map ascii_of_N)) in H. rewrite !map_map in H.
  rewrite (map_ext _ (fun x => x)) in H by apply ascii_N_embedding.
  rewrite (map_ext (fun x => ascii_of_N (N_of_ascii x)) (fun x => x)) in H
    by apply ascii_N_embedding.
  rewrite !map_id in H.
  rewrite <- (string_of_list_ascii_of_string a),
          <- (string_of_list_ascii_of_string b).
  now rewrite H.
Qed.

Lemma format_int_inj (i j : N) : format_int i = format_int j -> i = j.
Proof.
  unfold format_int. intros H. apply lit_inj in H.
  apply DecimalN.Unsigned.to_uint_inj.
  pose proof (NilEmpty.usu (N.to_uint i)) as Hi.
  rewrite H, NilEmpty.usu in Hi. congruence.
Qed.

Lemma format_int_digits (n : N) :
  Forall (fun c => (48 <= c <= 57)%N) (format_int n).
Proof.
  unfold format_int. induction (N.to_uint n); simpl;
    constructor; auto; simpl; lia.
Qed.

Lemma format_int_head (n : N) :
  exists c rest, format_int n = c :: rest /\ (48 <= c <= 57)%N.
Proof.
  pose proof (format_int_digits n) as H.
  destruct (format_int n) as [|c rest] eqn:E.
  - exfalso. unfold format_int in E.
    destruct (N.to_uint n) eqn:En; try discriminate E.
    destruct n as [|q]; [discriminate En|]. simpl in En.
    now apply DecimalPos.Unsigned.to_uint_nonnil in En.
  - exists c, rest. split; auto. now inversion H.
Qed.

Lemma first_underscore (u v a b : str) :
  u ++ 95%N :: a = v ++ 95%N :: b ->
  ~ In 95%N u -> ~ In 95%N v -> u = v.
Proof.
  revert v. induction u as [|c u IH]; intros [|d v] H Hu Hv; simpl in *; auto.
  - injection H as H _. exfalso. apply Hv. left. congruence.
  - injection H as H _. exfalso. apply Hu. now left.
  - injection H as -> H. f_equal. apply IH with (v := v); tauto.
Qed.

Lemma last_underscore (x y d1 d2 : str) :
  x ++ 95%N :: d1 = y ++ 95%N :: d2 ->
  ~ In 95%N d1 -> ~ In 95%N d2 -> d1 = d2.
Proof.
  intros H H1 H2. apply (f_equal (@rev char)) in H.
  rewrite !rev_app_distr in H. simpl in H. rewrite <- !app_assoc in H.
  simpl in H. apply first_underscore in H.
  - rewrite <- (rev_involutive d1), <- (rev_involutive d2). now rewrite H.
  - now rewrite <- in_rev.
  - now rewrite <- in_rev.
Qed.

Lemma format_int_no_underscore (n : N) : ~ In 95%N (format_int n).
Proof.
  intros H. pose proof (format_int_digits n) as Hd.
  rewrite Forall_forall in Hd. apply Hd in H. lia.
Qed.

Lemma path_join_suffix (a b : str) : exists z, path_join a b = z ++ b.
Proof.
  unfold path_join. destruct (startswith b [sep]); [now exists []|].
  destruct (_ || _); [now exists a|]. exists (a ++ [sep]).
  now rewrite <- app_assoc.
Qed.

Lemma path_join_inj (a x y : str) :
  startswith x [sep] = startswith y [sep] ->
  path_join a x = path_join a y -> x = y.
Proof.
  unfold path_join. intros <-.
  destruct (startswith x [sep]); auto.
  destruct (_ || _); intros H.
  - now apply app_inv_head in H.
  - apply app_inv_head in H. now injection H.
Qed.

(** Names of the form [{name}_{index}.vtt], each joined with some
    directory, are equal only for equal indices. *)
Lemma indexed_name_inj (out a b : str) (i j : N) :
  path_join out (a ++ lit "_" ++ format_int i ++ lit ".vtt")
  = path_join out (b ++ lit "_" ++ format_int j ++ lit ".vtt") ->
  i = j.
Proof.
  intros H.
  destruct (path_join_suffix out (a ++ lit "_" ++ format_int i ++ lit ".vtt"))
    as [z1 E1].
  destruct (path_join_suffix out (b ++ lit "_" ++ format_int j ++ lit ".vtt"))
    as [z2 E2].
  rewrite E1, E2 in H. clear E1 E2.
  replace (z1 ++ a ++ lit "_" ++ format_int i ++ lit ".vtt")
    with (((z1 ++ a) ++ 95%N :: format_int i) ++ lit ".vtt") in H
    by (now rewrite <- !app_assoc).
  replace (z2 ++ b ++ lit "_" ++ format_int j ++ lit ".vtt")
    with (((z2 ++ b) ++ 95%N :: format_int j) ++ lit ".vtt") in H
    by (now rewrite <- !app_assoc).
  apply app_inv_tail in H. apply last_underscore in H.
  - now apply format_int_inj.
  - apply format_int_no_underscore.
  - apply format_int_no_underscore.
Qed.

Lemma sequential_name_inj (out pre : str) (i j : N) :
  path_join out (pre ++ format_int i ++ lit ".vtt")
  = path_join out (pre ++ format_int j ++ lit ".vtt") ->
  i = j.
Proof.
  intros H. apply path_join_inj in H.
  - apply app_inv_head, app_inv_tail in H. now apply format_int_inj.
  - destruct pre as [|c pre];
      [|cbn [startswith app]; now rewrite !startswith_nil]. simpl.
    destruct (format_int_head i) as (c & r & -> & Hc).
    destruct (format_int_head j) as (d & t & -> & Hd).
    unfold sep. simpl.
    destruct (N.eqb_spec c 47), (N.eqb_spec d 47); auto; lia.
Qed.

Lemma rename_file_index_inj (opts : options) (askstring : str -> option str)
    (out b b' : str) (i j : N) :
  indexed_names opts askstring ->
  rename_file opts askstring out b i = rename_file opts askstring out b' j ->
  i = j.
Proof.
  unfold indexed_names, rename_file. intros Hn.
  destruct (sequential_var opts).
  - destruct (strip (prefix_var opts)) as [|c pre] eqn:E.
    + apply (sequential_name_inj out []).
    + rewrite <- !app_assoc. apply sequential_name_inj.
  - destruct Hn as [Hn|[Hn|Hn]]; [discriminate Hn| |].
    + rewrite Hn. apply indexed_name_inj.
    + destruct (rename_var opts); [|apply indexed_name_inj].
      match goal with
      | |- context [askstring ?q] =>
          destruct (Hn q) as (a & -> & Ha)
      end.
      match goal with
      | |- context [askstring ?q] =>
          destruct (Hn q) as (a' & -> & Ha')
      end.
      unfold str_eqb.
      repeat match goal with
             | |- context [list_eq_dec ?d ?x ?y] =>
                 destruct (list_eq_dec d x y) as [E|_]; [contradiction|]
             end.
      rewrite <- !app_assoc. apply indexed_name_inj.
Qed.

Lemma make_tasks_outputs (opts : options) (askstring : str -> option str)
    (choice input_dir output_dir : str) (files : list str) (index : N)
    (p : str) :
  In p (map snd (make_tasks opts askstring choice input_dir output_dir
                   files index)) ->
  exists b k, (index <= k)%N
              /\ p = rename_file opts askstring output_dir b k.
Proof.
  revert index. induction files as [|f files IH]; intros index; simpl.
  - tauto.
  - intros [<-|H].
    + exists (base_name choice f), index. split; [lia|reflexivity].
    + destruct (IH _ H) as (b & k & Hk & ->). exists b, k. split; [lia|auto].
Qed.

(** Unless a blank answer can be given in the rename dialog, the output
    paths of a batch are pairwise different: every file gets a path of
    its own, also when two files have the same base name. *)
Theorem output_paths_distinct (opts : options) (askstring : str -> option str)
    (choice input_dir output_dir : str) (files : list str) :
  indexed_names opts askstring ->
  NoDup (map snd (make_tasks opts askstring choice input_dir output_dir
                    files 1)).
Proof.
  intros Hn. generalize 1%N as index.
  induction files as [|f files IH]; intros index; simpl; constructor; auto.
  intros H. apply make_tasks_outputs in H as (b & k & Hk & E).
  apply rename_file_index_inj in E; auto. lia.
Qed.

Lemma output_paths_distinct_witness :
  let opts := {| sequential_var := false; prefix_var := [];
                 rename_var := false; use_threads_var := true |} in
  indexed_names opts (fun _ => None)
  /\ NoDup [lit "out/show_1.vtt"; lit "out/show_2.vtt"].
Proof.
  intros opts.
  assert (H : indexed_names opts (fun _ => None)) by (right; left; reflexivity).
  split; [exact H|].
  exact (output_paths_distinct opts (fun _ => None) (lit "vtt") (lit "in")
           (lit "out") [lit "show.vtt"; lit "show.mp4.vtt"] H).
Defined.

(** With interactive rename and a cancelled or blank answer the index is
    not part of the name: [stem.vtt] and [stem.mp4.vtt], wherever they
    are in the batch, get the same output path, [stem.vtt] joined with
    the output directory. *)
Theorem blank_answer_same_path (opts : options) (askstring : str -> option str)
    (output_directory stem : str) (i j : N) :
  sequential_var opts = false ->
  rename_var opts = true ->
  (forall q, askstring q = None
             \/ exists a, askstring q = Some a /\ strip a = []) ->
  ~ In 46%N stem ->
  rename_file opts askstring output_directory
    (base_name (lit "vtt") (stem ++ lit ".vtt")) i
  = path_join output_directory (stem ++ lit ".vtt")
  /\ rename_file opts askstring output_directory
       (base_name (lit "vtt") (stem ++ lit ".mp4.vtt")) j
     = path_join output_directory (stem ++ lit ".vtt").
Proof.
  intros Hs Hr Hb Hn.
  destruct (base_name_stem stem Hn) as (-> & -> & _).
  unfold rename_file. rewrite Hs, Hr.
  match goal with
  | |- context [askstring ?q] => destruct (Hb q) as [->|(a & -> & E)]
  end.
  - split; reflexivity.
  - rewrite E. split; reflexivity.
Qed.

Lemma blank_answer_same_path_witness :
  let opts := {| sequential_var := false; prefix_var := [];
                 rename_var := true; use_threads_var := false |} in
  map snd (make_tasks opts (fun _ => Some (lit " ")) (lit "vtt") (lit "in")
             (lit "out") [lit "show.vtt"; lit "show.mp4.vtt"] 1)
  = [lit "out/show.vtt"; lit "out/show.vtt"].
Proof.
  intros opts.
  assert (Hb : forall q : str,
             (fun _ : str => Some (lit " ")) q = None
             \/ exists a, (fun _ : str => Some (lit " ")) q = Some a
                          /\ strip a = []).
  { intros q. right. exists (lit " "). split; reflexivity. }
  destruct (blank_answer_same_path opts (fun _ => Some (lit " ")) (lit "out")
              (lit "show") 1 2 eq_refl eq_refl Hb no_period_in_show)
    as (H1 & H2).
  exact (f_equal2 (fun a b => [a; b]) H1 H2).
Defined.

(** ** The window *)

Lemma str_eqb_eq (a b : str) : str_eqb a b = true <-> a = b.
Proof.
  unfold str_eqb. destruct (list_eq_dec N.eq_dec a b); split; congruence.
Qed.

(** [start_processing] starts a batch exactly when none is running, both
    directories are given, the input directory exists and is a directory,
    and the output directory exists or can be created.  A start shows no
    dialog, raises the flag, disables the button and hands the selected
    operation and the two directories to the thread; a refusal shows one
    dialog and changes nothing else, so a running batch is not
    disturbed. *)
Theorem start_processing_spec (os : os_paths) (w : window) :
  let r := start_processing os w in
  (snd r <> None
   <-> is_processing w = false
       /\ input_dir_var w <> [] /\ output_dir_var w <> []
       /\ path_exists os (input_dir_var w) = true
       /\ path_isdir os (input_dir_var w) = true
       /\ (path_exists os (output_dir_var w) = true
           \/ makedirs os (output_dir_var w) = None))
  /\ (snd r <> None ->
      snd r = Some (choice_var w, input_dir_var w, output_dir_var w)
      /\ is_processing (fst r) = true
      /\ start_button_normal (fst r) = false
      /\ shown (fst r) = shown w)
  /\ (snd r = None ->
      exists d, fst r = show d w).
Proof.
  unfold start_processing. cbv zeta.
  pose proof (str_eqb_eq (input_dir_var w) []) as Hi.
  pose proof (str_eqb_eq (output_dir_var w) []) as Ho.
  destruct (is_processing w);
    destruct (str_eqb (input_dir_var w) []);
    destruct (str_eqb (output_dir_var w) []);
    destruct (path_exists os (input_dir_var w));
    destruct (path_isdir os (input_dir_var w));
    destruct (path_exists os (output_dir_var w));
    destruct (makedirs os (output_dir_var w));
    simpl; repeat split; intros; try (eexists; reflexivity);
    intuition congruence.
Qed.

Lemma start_processing_spec_witness :
  let os := {| path_exists := fun p => str_eqb p (lit "in");
               path_isdir := fun p => str_eqb p (lit "in");
               makedirs := fun _ => None |} in
  let w := select_output_directory (lit "out")
             (select_input_directory (lit "in") new_window) in
  snd (start_processing os w) = Some (lit "vtt", lit "in", lit "out")
  /\ is_processing (fst (start_processing os w)) = true
  /\ snd (start_processing os (fst (start_processing os w))) = None.
Proof.
  intros os w.
  assert (H : snd (start_processing os w) <> None) by discriminate.
  destruct (proj1 (proj2 (start_processing_spec os w)) H) as (E & P & _).
  split; [exact E|split; [exact P|reflexivity]].
Defined.

(** When a batch has ended, the next one starts under the same
    conditions: with the directories unchanged, a start that was accepted
    is accepted again after [processing_complete]. *)
Theorem start_after_complete (os : os_paths) (w : window) :
  snd (start_processing os w) <> None ->
  start_processing os (processing_complete (fst (start_processing os w)))
  = (fst (start_processing os w),
     Some (choice_var w, input_dir_var w, output_dir_var w)).
Proof.
  unfold start_processing, processing_complete.
  destruct (is_processing w) eqn:Ep; [simpl; easy|].
  destruct (str_eqb (input_dir_var w) [] || str_eqb (output_dir_var w) [])
    eqn:E0; [simpl; easy|].
  destruct (negb (path_exists os (input_dir_var w))
            || negb (path_isdir os (input_dir_var w))) eqn:E1; [simpl; easy|].
  destruct (if path_exists os (output_dir_var w) then None
            else makedirs os (output_dir_var w)) eqn:E2; [simpl; easy|].
  intros _.
  cbn [fst snd is_processing input_dir_var output_dir_var choice_var shown
       destroyed].
  now rewrite E0, E1, E2.
Qed.

Lemma start_after_complete_witness :
  let os := {| path_exists := fun _ => true;
               path_isdir := fun _ => true;
               makedirs := fun _ => None |} in
  let w := select_output_directory (lit "out")
             (select_input_directory (lit "in") new_window) in
  snd (start_processing os w) <> None
  /\ snd (start_processing os
            (processing_complete (fst (start_processing os w))))
     = Some (lit "vtt", lit "in", lit "out").
Proof.
  intros os w.
  assert (H : snd (start_processing os w) <> None) by discriminate.
  split; [exact H|].
  exact (f_equal snd (start_after_complete os w H)).
Defined.

Lemma handle_invariant (os : os_paths) (s : session) (e : event) :
  batch_invariant s -> batch_invariant (handle os s e).
Proof.
  unfold batch_invariant. intros (Ht & Hw). unfold handle.
  destruct (destroyed (win s)) eqn:Ed.
  { destruct e; simpl; rewrite ?Ed; (split; [lia|discriminate]). }
  specialize (Hw eq_refl). destruct Hw as (Hn & Hb).
  destruct e as [| | |a|d|d]; simpl.
  - unfold start_processing.
    destruct (is_processing (win s)) eqn:Ep; simpl.
    { rewrite Ep, Ed. split; [lia|]. intros _. split; [lia|assumption]. }
    destruct (str_eqb _ [] || str_eqb _ []); simpl.
    { rewrite Ep, Ed. split; [lia|]. intros _. split; [lia|assumption]. }
    destruct (negb _ || negb _); simpl.
    { rewrite Ep, Ed. split; [lia|]. intros _. split; [lia|assumption]. }
    destruct (if path_exists os (output_dir_var (win s)) then None
              else makedirs os (output_dir_var (win s))); simpl.
    { rewrite Ep, Ed. split; [lia|]. intros _. split; [lia|assumption]. }
    rewrite Ed. split; [lia|]. intros _. split; [lia|reflexivity].
  - destruct (threads s) as [|n] eqn:En; simpl.
    + rewrite Ed. split; [lia|]. intros _. split; [lia|assumption].
    + rewrite Ed. split; [lia|]. intros _. split; [lia|assumption].
  - destruct (pending s) as [|n] eqn:En; simpl.
    + rewrite Ed. split; [lia|]. intros _. split; [lia|assumption].
    + rewrite Ed. split; [lia|]. intros _. split; [lia|reflexivity].
  - unfold on_closing. destruct (is_processing (win s)) eqn:Ep.
    + destruct a; simpl.
      * split; [lia|]. discriminate.
      * rewrite Ed, Ep. split; [lia|]. intros _. split; assumption.
    + simpl. split; [lia|]. discriminate.
  - unfold select_input_directory. destruct d; simpl;
      rewrite Ed; (split; [lia|]); intros _; split; assumption.
  - unfold select_output_directory. destruct d; simpl;
      rewrite Ed; (split; [lia|]); intros _; split; assumption.
Qed.

(** Whatever is clicked, whenever the worker threads end and whenever the
    Tk loop runs their [processing_complete] callbacks, at most one
    worker thread exists at a time.  As long as the window exists,
    [is_processing] is set exactly while a worker thread runs or its
    [processing_complete] callback still waits on the Tk loop, and the
    start button is disabled exactly while [is_processing] is set. *)
Theorem one_batch_at_a_time (os : os_paths) (evs : list event) :
  let s := run_events os evs in
  threads s <= 1
  /\ threads s + pending s <= 1
  /\ (destroyed (win s) = false ->
      threads s + pending s = (if is_processing (win s) then 1 else 0)
      /\ start_button_normal (win s) = negb (is_processing (win s))).
Proof.
  unfold run_events.
  assert (G : forall evs s,
             batch_invariant s ->
             batch_invariant (fold_left (handle os) evs s)).
  { clear evs. induction evs as [|e evs IH]; intros s Hs; simpl; auto.
    apply IH. now apply handle_invariant. }
  destruct (G evs {| win := new_window; threads := 0; pending := 0 |})
    as (H1 & H2).
  - split; simpl; [lia|]. intros _. split; reflexivity.
  - simpl. split; [lia|]. split; assumption.
Qed.

(** ** The scenarios of the specification *)

Example scenario_zero_hour_line :
  adjust_timecode_vtt (lit "01:02:03.456 --> 01:02:05.789" ++ [newline])
  = lit "00:02:03.456 --> 00:02:05.789" ++ [newline]
  /\ adjust_timecode_vtt (lit "Hello" ++ [newline]) = lit "Hello" ++ [newline].
Proof. split; vm_compute; reflexivity. Qed.

Example scenario_show_mp4_vtt :
  let fs := {| open_read := fun _ =>
                 Some [Line (lit "01:02:03.456 --> 01:02:05.789" ++ [newline]);
                       Line (lit "Hello" ++ [newline])];
               open_write := fun _ => true |} in
  let opts := {| sequential_var := false; prefix_var := [];
                 rename_var := false; use_threads_var := false |} in
  make_tasks opts (fun _ => None) (lit "vtt") (lit "in") (lit "out")
    (select_files (lit "vtt") [lit "show.mp4.vtt"]) 1
  = [(lit "in/show.mp4.vtt", lit "out/show_1.vtt")]
  /\ process_vtt_file fs (lit "in/show.mp4.vtt") (lit "out/show_1.vtt")
     = (true, Some (lit "00:02:03.456 --> 00:02:05.789" ++ [newline]
                      ++ lit "Hello" ++ [newline])).
Proof. split; vm_compute; reflexivity. Qed.

Example scenario_sequential_names :
  let opts := {| sequential_var := true; prefix_var := lit "ep";
                 rename_var := false; use_threads_var := false |} in
  map snd (make_tasks opts (fun _ => None) (lit "srt") (lit "in") (lit "out")
             [lit "a.srt"; lit "b.srt"; lit "c.srt"] 1)
  = [lit "out/ep1.vtt"; lit "out/ep2.vtt"; lit "out/ep3.vtt"].
Proof. vm_compute. reflexivity. Qed.

Example scenario_no_matching_files :
  forall opts askstring fs cpu_count sched choice input_dir output_dir,
    process_files opts askstring fs cpu_count sched [] choice
      input_dir output_dir = NoMatchingFiles.
Proof. intros. unfold process_files, select_files. now destruct (is_vtt choice). Qed.
